(** * Event-management API: the event mutation pipeline and its storage adapter

    A shallow embedding of [src/utils/s3Helper.js], of the event controller
    ([getAllEvent], [getEvent], [createEvent], [updateEvent], [deleteEvent])
    and of the user controller ([getUsers], [getUser], [updateUser],
    [deleteUser], [updateAvatar]), followed by the properties of the update
    transaction, of the storage adapter and of soft deletion, and by
    further properties of the two controllers.

    The file has three parts: the program (values, data model, the outside
    world, the monad of programs, the storage adapter, the Mongoose calls,
    the controller); the vocabulary in which the properties are stated and
    a concrete installation to run them on; the properties and their
    proofs.

    Conventions of the embedding.
    - A JavaScript object used as a bag of fields (request body, Mongoose
      document) is a [gmap string jsval]; reading a property that is absent
      gives [VUndef], as in JavaScript.
    - Numbers are integers or NaN: capacities are integer counts.
    - An [async] function is a program in the monad [Prog]: it threads the
      [World] (database, open transaction, bucket, temporary files, activity
      log, trace of outward effects) and either returns or throws.
    - Everything the source takes from outside (the S3 client, the Cloudinary
      endpoint, the Mongoose schemas, the randomness of key names, whether a
      database call fails) is a field of [Env].
    - One request runs in isolation: no other request touches the database
      between the start and the end of the transaction. *)

From stdpp Require Import gmap strings list fin_maps pretty.
From Stdlib Require Import ZArith Ascii String.

Open Scope string_scope.
Open Scope Z_scope.
Open Scope list_scope.

(** ** JavaScript values *)

Module JS.

Inductive jsval : Type :=
| VUndef
| VNull
| VBool (b : bool)
| VNum (n : Z)
| VNaN
| VStr (s : string).

#[global] Instance jsval_eq_dec : EqDecision jsval.
Proof. solve_decision. Defined.

(** [ToBoolean]: what [if (v)], [!v], [v && ...] and [v || ...] test. *)
Definition truthy (v : jsval) : bool :=
  match v with
  | VUndef | VNull | VNaN => false
  | VBool b => b
  | VNum n => negb (n =? 0)
  | VStr s => negb (String.eqb s "")
  end.

Definition falsy (v : jsval) : bool := negb (truthy v).

(** [a || b] *)
Definition or (a b : jsval) : jsval := if truthy a then a else b.

(** White space that [StringToNumber] strips. *)
Definition is_space (c : ascii) : bool :=
  let n := nat_of_ascii c in
  ((n =? 32) || (n =? 9) || (n =? 10) || (n =? 13) || (n =? 11) || (n =? 12))%nat.

Fixpoint ltrim (s : string) : string :=
  match s with
  | String c s' => if is_space c then ltrim s' else s
  | EmptyString => EmptyString
  end.

Definition rtrim (s : string) : string :=
  String.rev (ltrim (String.rev s)).

Definition trim (s : string) : string := rtrim (ltrim s).

Definition digit_of (c : ascii) : option Z :=
  let n := nat_of_ascii c in
  if ((48 <=? n) && (n <=? 57))%nat then Some (Z.of_nat n - 48) else None.

Fixpoint digits (acc : Z) (s : string) : option Z :=
  match s with
  | EmptyString => Some acc
  | String c s' =>
      match digit_of c with
      | Some d => digits (10 * acc + d) s'
      | None => None
      end
  end.

(** [StringToNumber] on decimal integer literals: surrounding white space is
    dropped, the empty string is 0, an optional sign precedes the digits. A
    string that is no number is NaN ([None]); so are, in this model of
    integer capacities, the literals with a fraction, an exponent or a radix
    prefix. *)
Definition string_to_number (s : string) : option Z :=
  match trim s with
  | EmptyString => Some 0
  | String "-" (String c r) => Z.opp <$> digits 0 (String c r)
  | String "+" (String c r) => digits 0 (String c r)
  | String c r => digits 0 (String c r)
  end.

(** [ToNumber]; [None] is NaN. *)
Definition to_number (v : jsval) : option Z :=
  match v with
  | VUndef | VNaN => None
  | VNull => Some 0
  | VBool b => Some (if b then 1 else 0)
  | VNum n => Some n
  | VStr s => string_to_number s
  end.

(** [a > b]: two strings are compared as strings, anything else as numbers,
    and a comparison with NaN is false. *)
Definition gt (a b : jsval) : bool :=
  match a, b with
  | VStr s, VStr t => String.ltb t s
  | _, _ =>
      match to_number a, to_number b with
      | Some x, Some y => y <? x
      | _, _ => false
      end
  end.

(** [ToString], as a template literal applies it. *)
Definition to_string (v : jsval) : string :=
  match v with
  | VUndef => "undefined"
  | VNull => "null"
  | VBool b => if b then "true" else "false"
  | VNum n => pretty n
  | VNaN => "NaN"
  | VStr s => s
  end.

(** Property read on an object: an absent property is [undefined]. *)
Definition get (o : gmap string jsval) (k : string) : jsval :=
  default VUndef (o !! k).

End JS.

Export JS (jsval (..)).

Abbreviation Doc := (gmap string jsval).


(** ** Data model

    The Mongoose models (models/User.js, Participation.js, Notification.js,
    Settings.js, Event.js) are not among the sources: a record has the
    fields the controller reads or writes, and the Event schema is a
    parameter of the environment. An Event document is a bag of fields,
    because the controller merges the request body into it. *)

Module User.
Record t := { _id : string; firstName : string; lastName : string; email : string }.
End User.

Module Participation.
Record t := { _id : string; user : string; event : string; status : string }.
End Participation.

Module Notification.
Record t := {
  userId : string;
  type : string;
  message : string;
  relatedId : string;
  notificationSender : string;
  data : string;            (* the [message] field of the [data] object *)
  isRead : bool }.
End Notification.

Module Settings.
Record eventSettings_t := { maxAttendeesPerEvent : jsval }.
Record t := { eventSettings : option eventSettings_t }.
End Settings.

(** An Event document as a query returns it: its id, its stored fields, the
    organizer when [populate('organizer')] found one, and the [imageUrl]
    property that [addSignedUrlsToEvents] may add. *)
Module Event.
Record t := {
  _id : string;
  fields : Doc;
  organizer : option User.t;
  imageUrl : option jsval }.
Definition image (e : t) : jsval := JS.get (fields e) "image".
Definition title (e : t) : jsval := JS.get (fields e) "title".
Definition status (e : t) : jsval := JS.get (fields e) "status".
End Event.

(** One entry of the activity log: [logActivity(userId, action, entityType,
    entityId, metadata)]. *)
Record LogEntry := {
  actor : string; action : string; entityType : string;
  entityId : string; eventTitle : jsval }.

Record Db := {
  events : gmap string Doc;
  users : gmap string User.t;
  participations : list Participation.t;
  notifications : list Notification.t;
  settings : option Settings.t }.

(** Outward effects, in the order they happen. *)
Inductive Effect : Type :=
| MediaPut (key : string)
| MediaDelete (key : string) (ok : bool)
| TxnStart
| TxnCommit
| TxnAbort.

#[global] Instance Effect_eq_dec : EqDecision Effect.
Proof. solve_decision. Defined.

Record World := {
  db : Db;                              (* committed state *)
  txn : option Db;                      (* working copy of the open transaction *)
  bucket : gmap string (string * string); (* key -> body, content type *)
  tmpfiles : gset string;               (* multer's files on disk *)
  activity : list LogEntry;
  trace : list Effect }.

Definition with_db (d : Db) (w : World) : World :=
  {| db := d; txn := txn w; bucket := bucket w; tmpfiles := tmpfiles w;
     activity := activity w; trace := trace w |}.
Definition with_txn (t : option Db) (w : World) : World :=
  {| db := db w; txn := t; bucket := bucket w; tmpfiles := tmpfiles w;
     activity := activity w; trace := trace w |}.
Definition with_bucket (b : gmap string (string * string)) (w : World) : World :=
  {| db := db w; txn := txn w; bucket := b; tmpfiles := tmpfiles w;
     activity := activity w; trace := trace w |}.
Definition with_tmpfiles (f : gset string) (w : World) : World :=
  {| db := db w; txn := txn w; bucket := bucket w; tmpfiles := f;
     activity := activity w; trace := trace w |}.
Definition with_activity (a : list LogEntry) (w : World) : World :=
  {| db := db w; txn := txn w; bucket := bucket w; tmpfiles := tmpfiles w;
     activity := a; trace := trace w |}.
Definition emit (e : Effect) (w : World) : World :=
  {| db := db w; txn := txn w; bucket := bucket w; tmpfiles := tmpfiles w;
     activity := activity w; trace := trace w ++ [e] |}.

Definition with_events (m : gmap string Doc) (d : Db) : Db :=
  {| events := m; users := users d; participations := participations d;
     notifications := notifications d; settings := settings d |}.
Definition with_participations (l : list Participation.t) (d : Db) : Db :=
  {| events := events d; users := users d; participations := l;
     notifications := notifications d; settings := settings d |}.
Definition with_notifications (l : list Notification.t) (d : Db) : Db :=
  {| events := events d; users := users d; participations := participations d;
     notifications := l; settings := settings d |}.

(** ** Requests and responses *)

Record File := { buffer : string; mimetype : string; path : option string }.

Module Req.
Record t := {
  eventId : string;         (* req.params.eventId *)
  body : Doc;               (* req.body *)
  query : Doc;              (* req.query *)
  file : option File;       (* req.file *)
  userId : string }.        (* req.userId *)
End Req.

(** What a rejected promise or a [throw] carries. *)
Inductive exn : Type :=
| TypeError                  (* property read on null *)
| S3Error
| CloudinaryError
| FsError
| ValidationError
| DbError
| LogError.

#[global] Instance exn_eq_dec : EqDecision exn.
Proof. solve_decision. Defined.

(** The JSON bodies the controller sends. *)
Inductive Body : Type :=
| BError (error : string)                (* { error } *)
| BFailure (error : string) (cause : exn) (* { error, message: err.message } *)
| BMessage (message : string)            (* { message } *)
| BEvent (e : option Event.t)             (* a document, or null *)
| BEvents (es : list Event.t).

Record Response := { status : Z; json : Body }.

(** ** The outside world *)

(** The database calls of the controller, one name per call. *)
Inductive DbCall : Type :=
| CallEventFind | CallEventFindById | CallEventFindByIdAndUpdate | CallEventSave
| CallParticipationFind | CallParticipationUpdateMany
| CallNotificationCreate | CallSettingsFindOne | CallCommitTransaction.

(** The S3 client: which requests the service rejects, and the presigner
    ([None]: signing throws). *)
Record S3Client := {
  put_rejects : gmap string (string * string) → string → bool;
  delete_rejects : gmap string (string * string) → jsval → bool;
  presign : jsval → Z → option string }.

Record Env := {
  STORAGE_TYPE : option string;          (* process.env.STORAGE_TYPE *)
  s3Client : S3Client;
  randomHex : nat → string;              (* crypto.randomBytes(n).toString('hex') *)
  cloudinary : File → option (option string);
      (* the upload request: [None] it fails, [Some u] the [secure_url] of
         the parsed answer, absent when the answer has none *)
  castEvent : Doc → option Doc;
      (* the Event schema on [new Event(doc)] and [save()]: the stored
         fields, or [None] when validation fails *)
  castEventUpdate : bool → Doc → option Doc;
      (* the Event schema on an update, with or without [runValidators]:
         the fields the update sets, or [None] when casting or validation
         fails *)
  newEventId : string;                   (* the ObjectId of a new document *)
  notificationInvalid : Notification.t → bool; (* schema of Notification *)
  detectEventChanges : Event.t → Doc → jsval;
      (* utils/eventHelpers.js: the change detector, whose result the
         controller tests for truthiness *)
  dbFails : DbCall → bool;
  logActivityThrows : bool }.

(** [process.env.STORAGE_TYPE || 'cloudinary'] *)
Definition storageType (env : Env) : string :=
  match STORAGE_TYPE env with
  | Some s => if String.eqb s "" then "cloudinary" else s
  | None => "cloudinary"
  end.

(** ** Programs: state and exceptions *)

Inductive outcome (A : Type) : Type :=
| Returns (a : A) (w : World)
| Throws (e : exn) (w : World).
Arguments Returns {A} a w.
Arguments Throws {A} e w.

Definition Prog (A : Type) : Type := World → outcome A.

Definition ret {A} (a : A) : Prog A := λ w, Returns a w.

Definition bind {A B} (m : Prog A) (f : A → Prog B) : Prog B := λ w,
  match m w with
  | Returns a w' => f a w'
  | Throws e w' => Throws e w'
  end.

Declare Scope prog_scope.
Delimit Scope prog_scope with prog.
Notation "x ← y ; z" := (bind y (λ x : _, z))
  (at level 20, y at level 100, z at level 200, only parsing) : prog_scope.
Notation "x ;; z" := (bind x (λ _, z))
  (at level 100, z at level 200, only parsing, right associativity) : prog_scope.
Open Scope prog_scope.

Definition throw {A} (e : exn) : Prog A := λ w, Throws e w.
Definition modify (f : World → World) : Prog unit := λ w, Returns () (f w).
Definition gets {A} (f : World → A) : Prog A := λ w, Returns (f w) w.

(** [try { body } catch (err) { handler err }] *)
Definition try_catch {A} (body : Prog A) (handler : exn → Prog A) : Prog A := λ w,
  match body w with
  | Returns a w' => Returns a w'
  | Throws e w' => handler e w'
  end.

(** [... finally { cleanup }], for a cleanup that does not throw. *)
Definition finally {A} (body : Prog A) (cleanup : World → World) : Prog A := λ w,
  match body w with
  | Returns a w' => Returns a (cleanup w')
  | Throws e w' => Throws e (cleanup w')
  end.

Definition when (b : bool) (p : Prog unit) : Prog unit :=
  if b then p else ret ().

Definition final_world {A} (o : outcome A) : World :=
  match o with Returns _ w | Throws _ w => w end.

Definition returned {A} (o : outcome A) : option A :=
  match o with Returns a _ => Some a | Throws _ _ => None end.

(** ** src/utils/s3Helper.js *)

Section S3Helper.
Variable env : Env.

(** [s3Client.send(new PutObjectCommand(...))] *)
Definition send_PutObject (key body contentType : string) : Prog unit := λ w,
  if put_rejects (s3Client env) (bucket w) key then Throws S3Error w
  else Returns () (emit (MediaPut key) (with_bucket (<[key := (body, contentType)]> (bucket w)) w)).

(** [s3Client.send(new DeleteObjectCommand(...))] *)
Definition send_DeleteObject (key : jsval) : Prog unit := λ w,
  if delete_rejects (s3Client env) (bucket w) key
  then Throws S3Error (emit (MediaDelete (JS.to_string key) false) w)
  else Returns () (emit (MediaDelete (JS.to_string key) true)
                     (with_bucket (delete (JS.to_string key) (bucket w)) w)).

(** [getSignedUrl(s3Client, new GetObjectCommand(...), { expiresIn })] *)
Definition getSignedUrl (key : jsval) (expiresIn : Z) : Prog string := λ w,
  match presign (s3Client env) key expiresIn with
  | Some url => Returns url w
  | None => Throws S3Error w
  end.

Definition randomImageName (bytes : option nat) : string :=
  randomHex env (default 32%nat bytes).

Definition uploadToS3 (fileBuffer mimetype : string) : Prog string :=
  let imageName := randomImageName None in
  send_PutObject ("uploads/" +:+ imageName) fileBuffer mimetype ;;
  ret ("uploads/" +:+ imageName).

Definition getSignedUrlForKey (key : jsval) (expiresIn : option Z) : Prog jsval :=
  if JS.falsy key then ret VNull
  else
    try_catch
      (url ← getSignedUrl key (default 3600 expiresIn);
       ret (VStr url))
      (λ _, ret VNull).

Definition deleteFromS3 (key : jsval) : Prog bool :=
  if JS.falsy key then ret false
  else
    try_catch
      (send_DeleteObject key ;;
       ret true)
      (λ _, ret false).

End S3Helper.

(** ** Mongoose: sessions, queries and updates *)

Section Mongoose.
Variable env : Env.

(** Starting, aborting and ending a session are taken not to fail; every
    other call fails when the environment says so. *)

(** The state a query bound to the session sees. *)
Definition session_db (w : World) : Db := default (db w) (txn w).

Definition startTransaction : Prog unit :=
  modify (λ w, emit TxnStart (with_txn (Some (db w)) w)).

Definition abortTransaction : Prog unit :=
  modify (λ w, emit TxnAbort (with_txn None w)).

Definition commitTransaction : Prog unit := λ w,
  if dbFails env CallCommitTransaction then Throws DbError w
  else
    match txn w with
    | Some d => Returns () (emit TxnCommit (with_txn None (with_db d w)))
    | None => Throws DbError w
    end.

Definition endSession (w : World) : World := with_txn None w.

(** A query reads, and an update writes, the working copy of the
    transaction when it is bound to the session and the committed state
    otherwise. *)
Definition read_db (session : bool) (w : World) : Db :=
  if session then session_db w else db w.

Definition write_db (session : bool) (d : Db) (w : World) : World :=
  if session then with_txn (Some d) w else with_db d w.

Definition db_call {A} (c : DbCall) (p : Prog A) : Prog A := λ w,
  if dbFails env c then Throws DbError w else p w.

(** [.populate('organizer')] *)
Definition populate (d : Db) (id : string) (f : Doc) : Event.t :=
  {| Event._id := id;
     Event.fields := f;
     Event.organizer :=
       match JS.get f "organizer" with
       | VStr u => users d !! u
       | _ => None
       end;
     Event.imageUrl := None |}.

(** [Event.findById(id)] with [populate('organizer')] *)
Definition Event_findById_populate (session : bool) (id : string) : Prog (option Event.t) :=
  db_call CallEventFindById
    (gets (λ w, let d := read_db session w in populate d id <$> events d !! id)).

(** [Event.findByIdAndUpdate(id, update, { new: true, runValidators, session })]:
    the fields the schema makes of the update replace those of the stored
    document, the others stay. *)
Definition Event_findByIdAndUpdate (session runValidators : bool) (id : string) (update : Doc)
  : Prog (option (Doc * Db)) :=
  db_call CallEventFindByIdAndUpdate (λ w,
    match castEventUpdate env runValidators update with
    | None => Throws ValidationError w
    | Some u =>
        let d := read_db session w in
        match events d !! id with
        | None => Returns None w
        | Some old =>
            let d' := with_events (<[id := u ∪ old]> (events d)) d in
            Returns (Some (u ∪ old, d')) (write_db session d' w)
        end
    end).

(** [new Event(doc)] then [save()] *)
Definition Event_save (doc : Doc) : Prog string :=
  db_call CallEventSave (λ w,
    match castEvent env doc with
    | None => Throws ValidationError w
    | Some stored =>
        let d := db w in
        Returns (newEventId env)
          (with_db (with_events (<[newEventId env := stored]> (events d)) d) w)
    end).

Definition Settings_findOne : Prog (option Settings.t) :=
  db_call CallSettingsFindOne (gets (λ w, settings (db w))).

(** [Participation.find({ event, status })] bound to the session *)
Definition Participation_find_event (session : bool) (eventId status : string)
  : Prog (list Participation.t) :=
  db_call CallParticipationFind
    (gets (λ w,
       filter (λ p, Participation.event p = eventId ∧ Participation.status p = status)
              (participations (read_db session w)))).

(** [Participation.find({ user, status })] *)
Definition Participation_find_user (userId : jsval) (status : string)
  : Prog (list Participation.t) :=
  db_call CallParticipationFind
    (gets (λ w,
       filter (λ p, VStr (Participation.user p) = userId ∧ Participation.status p = status)
              (participations (db w)))).

(** [Participation.updateMany({ event }, { status })] *)
Definition set_status (status : string) (p : Participation.t) : Participation.t :=
  {| Participation._id := Participation._id p;
     Participation.user := Participation.user p;
     Participation.event := Participation.event p;
     Participation.status := status |}.

Definition update_status_of_event (eventId status : string) (ps : list Participation.t)
  : list Participation.t :=
  (λ p, if decide (Participation.event p = eventId) then set_status status p else p) <$> ps.

Definition Participation_updateMany (eventId status : string) : Prog unit :=
  db_call CallParticipationUpdateMany
    (modify (λ w,
       let d := db w in
       with_db (with_participations (update_status_of_event eventId status (participations d)) d)
               w)).

(** [Notification.create(docs, { session, ordered: true })]: the documents
    are saved one after the other in the transaction, and the first one the
    schema refuses stops the batch with an error, the earlier ones being
    already written to the working copy. *)
Fixpoint insert_ordered (docs : list Notification.t) (d : Db) : option exn * Db :=
  match docs with
  | [] => (None, d)
  | n :: rest =>
      if notificationInvalid env n then (Some ValidationError, d)
      else insert_ordered rest (with_notifications (notifications d ++ [n]) d)
  end.

Definition Notification_create (docs : list Notification.t) : Prog unit :=
  db_call CallNotificationCreate (λ w,
    match insert_ordered docs (session_db w) with
    | (Some e, d') => Throws e (with_txn (Some d') w)
    | (None, d') => Returns () (with_txn (Some d') w)
    end).

(** Modelled from the spec: middleware/logActivity.js is not among the
    sources. The activity-log sink records the actor, the verb, the type and
    the id of the entity and the metadata. The controller awaits it inside
    its [try] block, so whether it can throw is left to the environment. *)
Definition logActivity (userId action entityType entityId : string) (eventTitle : jsval)
  : Prog unit := λ w,
  if logActivityThrows env then Throws LogError w
  else Returns ()
         (with_activity
            (activity w ++ [{| actor := userId; action := action; entityType := entityType;
                               entityId := entityId; eventTitle := eventTitle |}]) w).

End Mongoose.

(** ** The event controller *)

Definition dq : string := String (ascii_of_nat 34) EmptyString.
Definition nl : string := String (ascii_of_nat 10) EmptyString.

Fixpoint spaces (n : nat) : string :=
  match n with
  | O => EmptyString
  | S n' => String " " (spaces n')
  end.

Fixpoint mapM {A B} (f : A → Prog B) (l : list A) : Prog (list B) :=
  match l with
  | [] => ret []
  | x :: l' => y ← f x; ys ← mapM f l'; ret (y :: ys)
  end.

Section Controller.
Variable env : Env.

Definition is_s3 : bool := String.eqb (storageType env) "s3".

Definition readFileSync (p : option string) : Prog unit := λ w,
  match p with
  | None => Throws TypeError w
  | Some p => if decide (p ∈ tmpfiles w) then Returns () w else Throws FsError w
  end.

Definition unlinkSync (p : option string) : Prog unit := λ w,
  match p with
  | None => Throws TypeError w
  | Some p =>
      if decide (p ∈ tmpfiles w)
      then Returns () (with_tmpfiles (tmpfiles w ∖ {[p]}) w)
      else Throws FsError w
  end.

(** The HTTPS request of [uploadToCloudinary] and the [secure_url] of its
    parsed answer. *)
Definition cloudinary_request (file : File) : Prog jsval := λ w,
  match cloudinary env file with
  | None => Throws CloudinaryError w
  | Some (Some url) => Returns (VStr url) (emit (MediaPut url) w)
  | Some None => Returns VUndef w
  end.

Definition uploadToCloudinary (file : File) : Prog jsval :=
  readFileSync (path file) ;;
  cloudinary_request file.

Definition deleteOldImage (imageKey : jsval) : Prog unit :=
  if JS.falsy imageKey then ret ()
  else if is_s3 then deleteFromS3 env imageKey ;; ret ()
  else ret ().

Definition set_imageUrl (url : jsval) (e : Event.t) : Event.t :=
  {| Event._id := Event._id e; Event.fields := Event.fields e;
     Event.organizer := Event.organizer e; Event.imageUrl := Some url |}.

(** The body of the loop of [addSignedUrlsToEvents]. *)
Definition sign_event (event : Event.t) : Prog Event.t :=
  if JS.truthy (Event.image event)
  then url ← getSignedUrlForKey env (Event.image event) None;
       ret (set_imageUrl url event)
  else ret event.

(** [addSignedUrlsToEvents] on an array *)
Definition addSignedUrlsToEvents (events : list Event.t) : Prog (list Event.t) :=
  if negb is_s3 then ret events
  else mapM sign_event events.

(** [addSignedUrlsToEvents] on one document, or on null *)
Definition addSignedUrlsToEvent (event : option Event.t) : Prog (option Event.t) :=
  if negb is_s3 then ret event
  else
    match event with
    | Some e => e ← sign_event e; ret (Some e)
    | None => throw TypeError
    end.

(** The catch blocks' [if (req.file?.path && fs.existsSync(req.file.path))
    fs.unlinkSync(req.file.path)]. *)
Definition remove_temp_file (req : Req.t) : Prog unit := λ w,
  match Req.file req with
  | Some f =>
      match path f with
      | Some p =>
          if negb (String.eqb p "") && bool_decide (p ∈ tmpfiles w)
          then Returns () (with_tmpfiles (tmpfiles w ∖ {[p]}) w)
          else Returns () w
      | None => Returns () w
      end
  | None => Returns () w
  end.

(** The upload both [createEvent] and [updateEvent] start with. *)
Definition upload (file : File) : Prog jsval :=
  if is_s3
  then imageKey ← uploadToS3 env (buffer file) (mimetype file);
       ret (VStr imageKey)
  else imageKey ← uploadToCloudinary file;
       unlinkSync (path file) ;;
       ret imageKey.

(** [Event.find(filter).populate('organizer')]: the stored documents that
    satisfy the filter; the order of the result is that of the store. *)
Definition found (d : Db) (cond : string → Doc → bool) : list Event.t :=
  (λ kv, populate d kv.1 kv.2) <$>
    filter (λ kv : string * Doc, cond kv.1 kv.2 : Prop) (map_to_list (events d)).

Definition Event_find (cond : string → Doc → bool) : Prog (list Event.t) :=
  db_call env CallEventFind (gets (λ w, found (db w) cond)).

(** [{ $nin: values }], and [{ $ne: v }] as [{ $nin: [v] }] *)
Definition nin (values : list string) (v : jsval) : bool :=
  match v with
  | VStr s => bool_decide (s ∉ values)
  | _ => true
  end.

(** The filter [getAllEvent] builds. *)
Definition listing_filter (isPublic organizerId : jsval) (doc : Doc) : bool :=
  (if JS.truthy isPublic
   then bool_decide (JS.get doc "publicity" = VBool true)
        && nin ["ended"; "cancelled"; "ongoing"; "deleted"] (JS.get doc "status")
   else nin ["deleted"] (JS.get doc "status"))
  && (if JS.truthy organizerId
      then bool_decide (JS.get doc "organizer" = organizerId)
      else true).

Definition respond (status : Z) (json : Body) : Prog Response :=
  ret {| status := status; json := json |}.

(** GET /events *)
Definition getAllEvent (req : Req.t) : Prog Response :=
  try_catch
    (let isPublic := JS.get (Req.query req) "public" in
     let organizerId := JS.get (Req.query req) "organizerId" in
     let participantId := JS.get (Req.query req) "participantId" in
     events ← Event_find (λ _ doc, listing_filter isPublic organizerId doc);
     if JS.truthy participantId then
       participations ← Participation_find_user env participantId "approved";
       let participantEventIds := Participation.event <$> participations in
       joinedEvents ← Event_find (λ id _, bool_decide (id ∈ participantEventIds));
       joinedEvents ← addSignedUrlsToEvents joinedEvents;
       if JS.truthy organizerId then
         events ← addSignedUrlsToEvents events;
         respond 200 (BEvents (events ++ joinedEvents))
       else
         respond 200 (BEvents joinedEvents)
     else
       events ← addSignedUrlsToEvents events;
       respond 200 (BEvents events))
    (λ err, respond 500 (BFailure "Failed to fetch events" err)).

(** GET /events/:eventId *)
Definition getEvent (req : Req.t) : Prog Response :=
  try_catch
    (event ← Event_findById_populate env false (Req.eventId req);
     match event with
     | None => respond 404 (BError "Event not found")
     | Some _ =>
         event ← addSignedUrlsToEvent event;
         respond 200 (BEvent event)
     end)
    (λ err, respond 500 (BFailure "Failed to fetch event" err)).

(** The capacity test of [createEvent] and [updateEvent]:
    [maxAttendees && maxAttendees > maxAllowed]. *)
Definition capacity_exceeded (maxAttendees maxAllowed : jsval) : bool :=
  JS.truthy maxAttendees && JS.gt maxAttendees maxAllowed.

(** The fields [createEvent] gives to [new Event]:
    [{ ...req.body, organizer: req.userId,
       maxAttendees: req.body.maxAttendees || maxAllowed, image: imageKey }] *)
Definition new_event_fields (req : Req.t) (maxAllowed imageKey : jsval) : Doc :=
  <["image" := imageKey]>
    (<["maxAttendees" := JS.or (JS.get (Req.body req) "maxAttendees") maxAllowed]>
       (<["organizer" := VStr (Req.userId req)]> (Req.body req))).

(** POST /events *)
Definition createEvent (req : Req.t) : Prog Response :=
  try_catch
    (imageKey ← match Req.file req with
                | Some f => upload f
                | None => ret VNull
                end;
     settings ← Settings_findOne env;
     match settings ≫= Settings.eventSettings with
     | None => respond 500 (BError "Event settings not configured")
     | Some eventSettings =>
         let maxAllowed := Settings.maxAttendeesPerEvent eventSettings in
         if capacity_exceeded (JS.get (Req.body req) "maxAttendees") maxAllowed
         then respond 500
                (BMessage ("Maximum capacity exceeded. System limit: " +:+ JS.to_string maxAllowed))
         else
           let newEvent := new_event_fields req maxAllowed imageKey in
           id ← Event_save env newEvent;
           stored ← gets (λ w, default ∅ (events (db w) !! id));
           logActivity env (Req.userId req) "created" "event" id (JS.get stored "title") ;;
           populatedEvent ← Event_findById_populate env false id;
           populatedEvent ← addSignedUrlsToEvent populatedEvent;
           respond 201 (BEvent populatedEvent)
     end)
    (λ err,
       remove_temp_file req ;;
       respond 400 (BFailure "Failed to create event" err)).

(** The record [updateEvent] builds for one approved participation. *)
Definition notification_for (updatedEvent : Event.t) (organizer : User.t) (organizerId : string)
    (participation : Participation.t) : Notification.t :=
  {| Notification.userId := Participation.user participation;
     Notification.type := "eventUpdate";
     Notification.message :=
       "Event " +:+ dq +:+ JS.to_string (Event.title updatedEvent) +:+ dq +:+ " has been updated";
     Notification.relatedId := Participation._id participation;
     Notification.notificationSender := organizerId;
     Notification.data :=
       "The event " +:+ dq +:+ JS.to_string (Event.title updatedEvent) +:+ dq
       +:+ " has been updated. Please kindly check the new details." +:+ nl
       +:+ spaces 14 +:+ "We look forward to your participation." +:+ nl
       +:+ spaces 16 +:+ nl
       +:+ spaces 14 +:+ "Regards," +:+ nl
       +:+ spaces 16 +:+ nl
       +:+ spaces 14 +:+ User.firstName organizer +:+ " " +:+ User.lastName organizer +:+ "," +:+ nl
       +:+ spaces 14 +:+ User.email organizer;
     Notification.isRead := false |}.

(** [participations.map(participation => ...)]: reading
    [updatedEvent.organizer.firstName] throws when the organizer is null. *)
Definition build_notifications (updatedEvent : Event.t) (organizerId : string)
    (participations : list Participation.t) : Prog (list Notification.t) :=
  match participations, Event.organizer updatedEvent with
  | [], _ => ret []
  | _ :: _, None => throw TypeError
  | _ :: _, Some organizer =>
      ret (notification_for updatedEvent organizer organizerId <$> participations)
  end.

(** [{ ...req.body, image: imageKey || existingEvent.image }] *)
Definition updateData (req : Req.t) (imageKey : jsval) (existingEvent : Event.t) : Doc :=
  <["image" := JS.or imageKey (Event.image existingEvent)]> (Req.body req).

(** The block [if (req.file) { ... }] of [updateEvent]: the upload of the
    new file, then the deletion of the old image. *)
Definition replace_media (req : Req.t) (existingEvent : Event.t) : Prog jsval :=
  match Req.file req with
  | Some f =>
      imageKey ← upload f;
      (* Delete old image *)
      when (JS.truthy (Event.image existingEvent))
           (deleteOldImage (Event.image existingEvent)) ;;
      ret imageKey
  | None => ret VNull
  end.

(** The block [if (changes) { ... }] of [updateEvent]. *)
Definition notify_participants (req : Req.t) (changes : jsval) (updatedEvent : Event.t)
    (organizerId : string) : Prog unit :=
  when (JS.truthy changes)
    (participations ← Participation_find_event env true (Req.eventId req) "approved";
     when (bool_decide (0 < List.length participations)%nat)
       (notifications ← build_notifications updatedEvent organizerId participations;
        Notification_create env notifications)).

(** PUT /events/:eventId *)
Definition updateEvent (req : Req.t) : Prog Response :=
  startTransaction ;;
  finally
    (try_catch
       (existingEvent ← Event_findById_populate env true (Req.eventId req);
        match existingEvent with
        | None =>
            abortTransaction ;;
            respond 404 (BError "Event not found")
        | Some existingEvent =>
            imageKey ← replace_media req existingEvent;
            organizerId ← match Event.organizer existingEvent with
                          | Some organizer => ret (User._id organizer)
                          | None => throw TypeError
                          end;
            let updateData := updateData req imageKey existingEvent in
            settings ← Settings_findOne env;
            match settings ≫= Settings.eventSettings with
            | None =>
                abortTransaction ;;
                respond 500 (BError "Event settings not configured")
            | Some eventSettings =>
                let maxAllowed := Settings.maxAttendeesPerEvent eventSettings in
                if capacity_exceeded (JS.get updateData "maxAttendees") maxAllowed
                then
                  abortTransaction ;;
                  respond 400
                    (BMessage ("System limit exceeded. Current maximum event capacity: "
                               +:+ JS.to_string maxAllowed))
                else
                  let changes := detectEventChanges env existingEvent updateData in
                  updated ← Event_findByIdAndUpdate env true true (Req.eventId req) updateData;
                  match updated with
                  | None => throw TypeError
                  | Some (fields, d) =>
                      let updatedEvent := populate d (Req.eventId req) fields in
                      logActivity env (Req.userId req) "updated" "event"
                                  (Event._id updatedEvent) (Event.title updatedEvent) ;;
                      notify_participants req changes updatedEvent organizerId ;;
                      commitTransaction env ;;
                      updatedEvent ← addSignedUrlsToEvent (Some updatedEvent);
                      respond 200 (BEvent updatedEvent)
                  end
            end
        end)
       (λ err,
          abortTransaction ;;
          remove_temp_file req ;;
          respond 400 (BFailure "Failed to update event" err)))
    endSession.

(** DELETE /events/:eventId *)
Definition deleteEvent (req : Req.t) : Prog Response :=
  try_catch
    (deletedEvent ←
       Event_findByIdAndUpdate env false false (Req.eventId req) {["status" := VStr "deleted"]};
     match deletedEvent with
     | None => respond 404 (BError "Event not found")
     | Some (fields, _) =>
         Participation_updateMany env (Req.eventId req) "deleted" ;;
         when (JS.truthy (JS.get fields "image"))
              (deleteOldImage (JS.get fields "image")) ;;
         logActivity env (Req.userId req) "deleted" "event" (Req.eventId req)
                     (JS.get fields "title") ;;
         respond 200 (BMessage "Event and related participations soft deleted successfully")
     end)
    (λ err, respond 500 (BFailure "Failed to delete event" err)).

End Controller.

(** ** src/controllers/userController.js

    The User model (models/User.js) and bcrypt are not among the sources: a
    User document is a bag of fields, and the User schema, the casting of
    the values of a query and the two functions of bcrypt are parameters.
    The helpers [uploadToCloudinary] and [deleteOldImage] of this file are
    copies of those of the event controller, and [storageType] reads the
    same variable. *)

(** A User document as the controller sends it: its id, its fields, and the
    [avatarUrl] property that [addSignedUrlsToUsers] may add. *)
Module Account.
Record t := { _id : string; fields : Doc; avatarUrl : option jsval }.
Definition avatar (u : t) : jsval := JS.get (fields u) "avatar".
End Account.

(** The User collection with all the fields of its documents, beside the
    world of the event controller; [users] in the database of that world is
    what [populate('organizer')] reads of the collection. *)
Record Site := { world : World; accounts : gmap string Doc }.

Definition with_world (w : World) (s : Site) : Site :=
  {| world := w; accounts := accounts s |}.

Definition with_users (m : gmap string User.t) (d : Db) : Db :=
  {| events := events d; users := m; participations := participations d;
     notifications := notifications d; settings := settings d |}.

(** What [populate('organizer')] reads of a User document; the event
    controller uses the names and the address in template literals. *)
Definition account_view (id : string) (doc : Doc) : User.t :=
  {| User._id := id;
     User.firstName := JS.to_string (JS.get doc "firstName");
     User.lastName := JS.to_string (JS.get doc "lastName");
     User.email := JS.to_string (JS.get doc "email") |}.

(** A write to, and a removal from, the User collection. *)
Definition with_account (id : string) (doc : Doc) (s : Site) : Site :=
  let d := db (world s) in
  {| world := with_db (with_users (<[id := account_view id doc]> (users d)) d) (world s);
     accounts := <[id := doc]> (accounts s) |}.

Definition without_account (id : string) (s : Site) : Site :=
  let d := db (world s) in
  {| world := with_db (with_users (delete id (users d)) d) (world s);
     accounts := delete id (accounts s) |}.

Module UReq.
Record t := {
  id : string;              (* req.params.id *)
  body : Doc;               (* req.body *)
  file : option File;       (* req.file *)
  userId : string }.        (* req.userId *)
End UReq.

Inductive uexn : Type :=
| Raised (e : exn)
| BcryptError.

(** The JSON bodies the user controller sends. *)
Inductive UBody : Type :=
| UMessage (message : string)                 (* { message } *)
| UError (error : string)                     (* { error } *)
| UFailure (cause : uexn) (fallback : option string)
                                              (* { message: err.message [|| fallback] } *)
| UUser (user : Account.t)
| UUsers (users : list Account.t)
| UAvatar (message : string) (avatar : jsval) (user : Account.t).

Record UResponse := { ustatus : Z; ujson : UBody }.

(** The calls on the User model. *)
Inductive UserCall : Type :=
| CallUserFind | CallUserFindById | CallUserFindOne | CallUserSave
| CallUserFindByIdAndDelete.

Record UEnv := {
  base_env : Env;
  bcrypt_compare : jsval → jsval → option bool;
      (* bcrypt.compare(data, hash); [None]: it rejects *)
  bcrypt_hash : jsval → Z → option string;
      (* bcrypt.hash(data, rounds); [None]: it rejects *)
  castUser : Doc → option Doc;
      (* the User schema on [save()]: the stored fields, or [None] when
         validation fails *)
  castUserQuery : string → jsval → option jsval;
      (* the User schema on the value a query gives for a path; [None]: the
         value cannot be cast *)
  userDbFails : UserCall → bool }.

Inductive uoutcome (A : Type) : Type :=
| UReturns (a : A) (s : Site)
| UThrows (e : uexn) (s : Site).
Arguments UReturns {A} a s.
Arguments UThrows {A} e s.

Definition UProg (A : Type) : Type := Site → uoutcome A.

Definition uret {A} (a : A) : UProg A := λ s, UReturns a s.

Definition ubind {A B} (m : UProg A) (f : A → UProg B) : UProg B := λ s,
  match m s with
  | UReturns a s' => f a s'
  | UThrows e s' => UThrows e s'
  end.

Definition uthrow {A} (e : uexn) : UProg A := λ s, UThrows e s.
Definition ugets {A} (f : Site → A) : UProg A := λ s, UReturns (f s) s.
Definition umodify (f : Site → Site) : UProg unit := λ s, UReturns () (f s).

Definition utry_catch {A} (body : UProg A) (handler : uexn → UProg A) : UProg A := λ s,
  match body s with
  | UReturns a s' => UReturns a s'
  | UThrows e s' => handler e s'
  end.

(** A program of the event controller or of the storage adapter, run by the
    user controller. *)
Definition lift {A} (p : Prog A) : UProg A := λ s,
  match p (world s) with
  | Returns a w => UReturns a (with_world w s)
  | Throws e w => UThrows (Raised e) (with_world w s)
  end.

Definition ufinal {A} (o : uoutcome A) : Site :=
  match o with UReturns _ s | UThrows _ s => s end.

Definition ureturned {A} (o : uoutcome A) : option A :=
  match o with UReturns a _ => Some a | UThrows _ _ => None end.

Declare Scope uprog_scope.
Delimit Scope uprog_scope with uprog.
Notation "x ← y ; z" := (ubind y (λ x : _, z))
  (at level 20, y at level 100, z at level 200, only parsing) : uprog_scope.
Notation "x ;; z" := (ubind x (λ _, z))
  (at level 100, z at level 200, only parsing, right associativity) : uprog_scope.

(** [a !== b] on primitive values: NaN differs from everything. *)
Definition strict_ne (a b : jsval) : bool :=
  match a, b with
  | VNaN, _ | _, VNaN => true
  | _, _ => negb (bool_decide (a = b))
  end.

Section UserController.
Variable uenv : UEnv.
Let env : Env := base_env uenv.

Definition set_avatarUrl (url : jsval) (u : Account.t) : Account.t :=
  {| Account._id := Account._id u; Account.fields := Account.fields u;
     Account.avatarUrl := Some url |}.

(** The body of the loop of [addSignedUrlsToUsers]. *)
Definition sign_user (user : Account.t) : Prog Account.t :=
  if JS.truthy (Account.avatar user)
  then url ← getSignedUrlForKey env (Account.avatar user) None;
       ret (set_avatarUrl url user)
  else ret user.

(** [addSignedUrlsToUsers] on an array *)
Definition addSignedUrlsToUsers (users : list Account.t) : Prog (list Account.t) :=
  if negb (is_s3 env) then ret users
  else mapM sign_user users.

(** [addSignedUrlsToUsers] on one document *)
Definition addSignedUrlsToUser (user : Account.t) : Prog Account.t :=
  if negb (is_s3 env) then ret user
  else sign_user user.

(** The catch block's [if (req.file?.path && fs.existsSync(req.file.path))
    { try { fs.unlinkSync(req.file.path) } catch { } }]. *)
Definition cleanup_temp_file (file : option File) : Prog unit :=
  match file with
  | Some f =>
      match path f with
      | Some p =>
          if negb (String.eqb p "")
          then exists_ ← gets (λ w, bool_decide (p ∈ tmpfiles w));
               if exists_ : bool
               then try_catch (unlinkSync (Some p)) (λ _, ret ())
               else ret ()
          else ret ()
      | None => ret ()
      end
  | None => ret ()
  end.

Open Scope uprog_scope.

Definition user_call {A} (c : UserCall) (p : UProg A) : UProg A := λ s,
  if userDbFails uenv c then UThrows (Raised DbError) s else p s.

(** [.select('-password')], and [toObject()] followed by
    [delete userObject.password] *)
Definition without_password (id : string) (doc : Doc) : Account.t :=
  {| Account._id := id; Account.fields := delete "password" doc; Account.avatarUrl := None |}.

(** [User.find().select('-password')]; the order of the result is that of
    the store. *)
Definition User_find : UProg (list Account.t) :=
  user_call CallUserFind
    (ugets (λ s, (λ kv, without_password kv.1 kv.2) <$> map_to_list (accounts s))).

(** [User.findById(id)] *)
Definition User_findById (id : string) : UProg (option Doc) :=
  user_call CallUserFindById (ugets (λ s, accounts s !! id)).

(** [User.findOne({ [path]: value })] *)
Definition User_findOne (path : string) (value : jsval) : UProg (option Doc) :=
  user_call CallUserFindOne (λ s,
    match castUserQuery uenv path value with
    | None => UThrows (Raised DbError) s
    | Some v =>
        UReturns
          (snd <$> head (filter (λ kv : string * Doc, kv.2 !! path = Some v)
                                (map_to_list (accounts s))))
          s
    end).

(** [user.save()] on the document of id [id]: the fields the schema makes of
    the document are stored, and they are those of the document from then
    on. *)
Definition User_save (id : string) (doc : Doc) : UProg Doc :=
  user_call CallUserSave (λ s,
    match castUser uenv doc with
    | None => UThrows (Raised ValidationError) s
    | Some stored => UReturns stored (with_account id stored s)
    end).

(** [User.findByIdAndDelete(id)] *)
Definition User_findByIdAndDelete (id : string) : UProg unit :=
  user_call CallUserFindByIdAndDelete (umodify (without_account id)).

Definition bcrypt_compare_ (data hash : jsval) : UProg bool := λ s,
  match bcrypt_compare uenv data hash with
  | Some b => UReturns b s
  | None => UThrows BcryptError s
  end.

Definition bcrypt_hash_ (data : jsval) (rounds : Z) : UProg string := λ s,
  match bcrypt_hash uenv data rounds with
  | Some h => UReturns h s
  | None => UThrows BcryptError s
  end.

Definition urespond (status : Z) (json : UBody) : UProg UResponse :=
  uret {| ustatus := status; ujson := json |}.


(** [getUser]: the user of id [req.params.id] *)
Definition getUser (req : UReq.t) : UProg UResponse :=
  utry_catch
    (user ← User_findById (UReq.id req);
     match user with
     | None => urespond 404 (UMessage "User not found")
     | Some user =>
         user ← lift (addSignedUrlsToUser (without_password (UReq.id req) user));
         urespond 200 (UUser user)
     end)
    (λ error, urespond 500 (UFailure error None)).

(** The test [if (value && value !== current)] of [updateUser] and the
    lookup it guards: whether another document already has the value. *)
Definition already_taken (path : string) (value current : jsval) : UProg bool :=
  if JS.truthy value && strict_ne value current
  then existingUser ← User_findOne path value;
       uret (bool_decide (is_Some existingUser))
  else uret false.

(** The block [if (password) { ... }] of [updateUser]: the message of the
    refusal, or the document with the new hash. *)
Definition change_password (password currentPassword : jsval) (user : Doc)
  : UProg (string + Doc) :=
  if JS.truthy password then
    if JS.falsy currentPassword then uret (inl "Current password is required")
    else
      isPasswordValid ← bcrypt_compare_ currentPassword (JS.get user "password");
      if negb isPasswordValid then uret (inl "Current password is incorrect")
      else
        hashedPassword ← bcrypt_hash_ password 10;
        uret (inr (<["password" := VStr hashedPassword]> user))
  else uret (inr user).

(** [if (value) user[path] = value] *)
Definition set_if_given (path : string) (value : jsval) (user : Doc) : Doc :=
  if JS.truthy value then <[path := value]> user else user.

(** [updateUser]: the profile of the requester, [req.userId] *)
Definition updateUser (req : UReq.t) : UProg UResponse :=
  utry_catch
    (let firstName := JS.get (UReq.body req) "firstName" in
     let lastName := JS.get (UReq.body req) "lastName" in
     let username := JS.get (UReq.body req) "username" in
     let email := JS.get (UReq.body req) "email" in
     let password := JS.get (UReq.body req) "password" in
     let currentPassword := JS.get (UReq.body req) "currentPassword" in
     user ← User_findById (UReq.userId req);
     match user with
     | None => urespond 404 (UMessage "User not found")
     | Some user =>
         taken ← already_taken "username" username (JS.get user "username");
         if taken : bool then urespond 400 (UMessage "Username already taken")
         else
           taken ← already_taken "email" email (JS.get user "email");
           if taken : bool then urespond 400 (UMessage "Email already taken")
           else
             changed ← change_password password currentPassword user;
             match changed with
             | inl refusal => urespond 400 (UMessage refusal)
             | inr user =>
                 let user :=
                   set_if_given "email" email
                     (set_if_given "username" username
                        (set_if_given "lastName" lastName
                           (set_if_given "firstName" firstName user))) in
                 user ← User_save (UReq.userId req) user;
                 lift (logActivity env (UReq.userId req) "updated" "user" (UReq.userId req)
                                   (JS.get user "email")) ;;
                 userObject ←
                   lift (addSignedUrlsToUser (without_password (UReq.userId req) user));
                 urespond 200 (UUser userObject)
             end
     end)
    (λ error, urespond 500 (UFailure error None)).

(** [deleteUser]: the user of id [req.params.id] *)
Definition deleteUser (req : UReq.t) : UProg UResponse :=
  utry_catch
    (user ← User_findById (UReq.id req);
     match user with
     | None => urespond 404 (UMessage "User not found")
     | Some user =>
         lift (when (JS.truthy (JS.get user "avatar"))
                    (deleteOldImage env (JS.get user "avatar"))) ;;
         User_findByIdAndDelete (UReq.id req) ;;
         lift (logActivity env (UReq.userId req) "deleted" "user" (UReq.id req)
                           (JS.get user "email")) ;;
         urespond 200 (UMessage "User deleted successfully")
     end)
    (λ error, urespond 500 (UFailure error None)).

(** [userObject.avatarUrl] *)
Definition avatarUrl_of (u : Account.t) : jsval :=
  match Account.avatarUrl u with
  | Some url => url
  | None => JS.get (Account.fields u) "avatarUrl"
  end.

(** [updateAvatar]: the avatar of the requester, [req.userId] *)
Definition updateAvatar (req : UReq.t) : UProg UResponse :=
  utry_catch
    (match UReq.file req with
     | None => urespond 400 (UError "No file uploaded")
     | Some file =>
         avatarKey ← lift (upload env file);
         user ← User_findById (UReq.userId req);
         match user with
         | None => urespond 404 (UMessage "User not found")
         | Some user =>
             lift (when (JS.truthy (JS.get user "avatar") && JS.truthy avatarKey)
                        (deleteOldImage env (JS.get user "avatar"))) ;;
             user ← User_save (UReq.userId req) (<["avatar" := avatarKey]> user);
             lift (logActivity env (UReq.userId req) "updated" "user" (UReq.userId req)
                               (VStr "avatar_update")) ;;
             userObject ←
               lift (addSignedUrlsToUser (without_password (UReq.userId req) user));
             urespond 200 (UAvatar "Avatar updated successfully"
                                   (avatarUrl_of userObject) userObject)
         end
     end)
    (λ err,
       lift (cleanup_temp_file (UReq.file req)) ;;
       urespond 500 (UFailure err (Some "Failed to update avatar"))).

End UserController.

(** * The vocabulary of the properties *)

(** What [getSignedUrlForKey] answers. *)
Definition signed_url (env : Env) (key : jsval) (expiresIn : option Z) : jsval :=
  if JS.falsy key then VNull
  else match presign (s3Client env) key (default 3600 expiresIn) with
       | Some url => VStr url
       | None => VNull
       end.

(** What [addSignedUrlsToEvents] makes of one document. *)
Definition signed (env : Env) (event : Event.t) : Event.t :=
  if JS.truthy (Event.image event)
  then set_imageUrl (signed_url env (Event.image event) None) event
  else event.

(** The outward effects the media step may have: uploads, and, on the S3
    backend only, the deletion of the old image. *)
Definition media_effect (env : Env) (image : jsval) (e : Effect) : Prop :=
  match e with
  | MediaPut _ => True
  | MediaDelete k _ => is_s3 env = true ∧ JS.truthy image = true ∧ k = JS.to_string image
  | _ => False
  end.

(** The media step leaves the database, the transaction and the activity log
    alone. *)
Definition media_frame (env : Env) (image : jsval) (w w1 : World) : Prop :=
  ∃ b fs m,
    w1 = {| db := db w; txn := txn w; bucket := b; tmpfiles := fs;
            activity := activity w; trace := trace w ++ m |}
    ∧ Forall (media_effect env image) m.

Definition is_key (k : jsval) : Prop := k = VUndef ∨ ∃ s, k = VStr s.

Definition approved_participations (eventId : string) (d : Db) : list Participation.t :=
  filter (λ p, Participation.event p = eventId ∧ Participation.status p = "approved")
         (participations d).

(** The records the notification step inserts. *)
Definition created_notifications (changes : jsval) (updatedEvent : Event.t)
    (organizerId : string) (approved : list Participation.t) : list Notification.t :=
  if JS.truthy changes then
    match Event.organizer updatedEvent with
    | Some organizer => notification_for updatedEvent organizer organizerId <$> approved
    | None => []
    end
  else [].

(** The batch is refused: the database call fails, or the schema refuses
    one of the records. *)
Definition batch_refused (env : Env) (docs : list Notification.t) : Prop :=
  dbFails env CallNotificationCreate = true
  ∨ Exists (λ n, notificationInvalid env n = true) docs.

(** The response to a proposed capacity above the ceiling. *)
Definition capacity_response (maxAllowed : jsval) : Response :=
  {| status := 400;
     json := BMessage ("System limit exceeded. Current maximum event capacity: "
                       +:+ JS.to_string maxAllowed) |}.

(** The response of [createEvent] to a proposed capacity above the ceiling. *)
Definition create_capacity_response (maxAllowed : jsval) : Response :=
  {| status := 500;
     json := BMessage ("Maximum capacity exceeded. System limit: "
                       +:+ JS.to_string maxAllowed) |}.

(** The world once the transaction is started. *)
Definition started (w : World) : World := emit TxnStart (with_txn (Some (db w)) w).

Section UpdateOutcome.
Variables (env : Env) (req : Req.t) (w : World).

(** The outward effects [m] are those of the media step, when the run gets
    to it. *)
Definition media_trace (m : list Effect) : Prop :=
  (Req.file req = None → m = [])
  ∧ ∀ old, dbFails env CallEventFindById = false →
           events (db w) !! Req.eventId req = Some old →
           trace (final_world (replace_media env req (populate (db w) (Req.eventId req) old)
                                 (started w)))
           = trace (started w) ++ m.

(** The image of the event before the request. *)
Definition old_image : jsval :=
  from_option (λ old, JS.get old "image") VUndef (events (db w) !! Req.eventId req).

(** A run of [updateEvent] ends in one of two ways. Either the transaction
    is aborted and the database is what it was, or it is committed: the
    event has the fields the schema made of the update, and the
    notifications of the approved participations are all there. Between
    the start and the end of the transaction, the only outward effects are
    those of the media step. *)
Inductive update_outcome (r : Response) (w' : World) : Prop :=
| Aborted (m : list Effect) :
    db w' = db w →
    txn w' = None →
    trace w' = trace w ++ TxnStart :: m ++ [TxnAbort] →
    Forall (media_effect env old_image) m →
    media_trace m →
    status r ≠ 200 →
    (∀ msg, json r = BMessage msg →
       ∃ es, settings (db w) ≫= Settings.eventSettings = Some es
             ∧ r = capacity_response (Settings.maxAttendeesPerEvent es)
             ∧ capacity_exceeded (JS.get (Req.body req) "maxAttendees")
                                 (Settings.maxAttendeesPerEvent es) = true) →
    update_outcome r w'
| Committed (old : Doc) (imageKey : jsval) (organizer : User.t)
            (es : Settings.eventSettings_t) (u : Doc) (m : list Effect) :
    let existingEvent := populate (db w) (Req.eventId req) old in
    let update := updateData req imageKey existingEvent in
    let d := with_events (<[Req.eventId req := u ∪ old]> (events (db w))) (db w) in
    let updatedEvent := populate d (Req.eventId req) (u ∪ old) in
    let created :=
      created_notifications (detectEventChanges env existingEvent update) updatedEvent
        (User._id organizer) (approved_participations (Req.eventId req) (db w)) in
    events (db w) !! Req.eventId req = Some old →
    Event.organizer existingEvent = Some organizer →
    (Req.file req = None → imageKey = VNull) →
    (imageKey = VNull ∨ is_key imageKey) →
    settings (db w) ≫= Settings.eventSettings = Some es →
    capacity_exceeded (JS.get (Req.body req) "maxAttendees")
                      (Settings.maxAttendeesPerEvent es) = false →
    castEventUpdate env true update = Some u →
    (created = [] ∨ ¬ batch_refused env created) →
    List.length created
    = (if JS.truthy (detectEventChanges env existingEvent update)
       then List.length (approved_participations (Req.eventId req) (db w)) else 0%nat) →
    db w' = with_notifications (notifications (db w) ++ created) d →
    txn w' = None →
    trace w' = trace w ++ TxnStart :: m ++ [TxnCommit] →
    Forall (media_effect env old_image) m →
    media_trace m →
    r = {| status := 200;
           json := BEvent (Some (if is_s3 env then signed env updatedEvent
                                 else updatedEvent)) |} →
    update_outcome r w'.

End UpdateOutcome.




(** The Event schema stores an image key as it is given. *)
Definition schema_keeps_image_keys (env : Env) : Prop :=
  ∀ u u' s, castEventUpdate env true u = Some u' →
            u !! "image" = Some (VStr s) → u' !! "image" = Some (VStr s).


(** The Event schema stores a numeric capacity as it is given. *)
Definition schema_keeps_capacity (env : Env) : Prop :=
  ∀ d d' c, castEvent env d = Some d' →
            JS.get d "maxAttendees" = VNum c → JS.get d' "maxAttendees" = VNum c.

(** The events a listing answers with. *)
Definition listed (r : Response) : list Event.t :=
  match json r with
  | BEvents es => es
  | _ => []
  end.

(** The same installation with another answer to deletion requests. *)
Definition with_delete_policy
    (policy : gmap string (string * string) → jsval → bool) (env : Env) : Env :=
  {| STORAGE_TYPE := STORAGE_TYPE env;
     s3Client := {| put_rejects := put_rejects (s3Client env);
                    delete_rejects := policy;
                    presign := presign (s3Client env) |};
     randomHex := randomHex env;
     cloudinary := cloudinary env;
     castEvent := castEvent env;
     castEventUpdate := castEventUpdate env;
     newEventId := newEventId env;
     notificationInvalid := notificationInvalid env;
     detectEventChanges := detectEventChanges env;
     dbFails := dbFails env;
     logActivityThrows := logActivityThrows env |}.

(** The same installation with other database calls that fail, with another
    storage backend, with another schema of notifications. *)
Definition with_dbFails (fails : DbCall → bool) (env : Env) : Env :=
  {| STORAGE_TYPE := STORAGE_TYPE env;
     s3Client := s3Client env;
     randomHex := randomHex env;
     cloudinary := cloudinary env;
     castEvent := castEvent env;
     castEventUpdate := castEventUpdate env;
     newEventId := newEventId env;
     notificationInvalid := notificationInvalid env;
     detectEventChanges := detectEventChanges env;
     dbFails := fails;
     logActivityThrows := logActivityThrows env |}.

Definition with_STORAGE_TYPE (backend : option string) (env : Env) : Env :=
  {| STORAGE_TYPE := backend;
     s3Client := s3Client env;
     randomHex := randomHex env;
     cloudinary := cloudinary env;
     castEvent := castEvent env;
     castEventUpdate := castEventUpdate env;
     newEventId := newEventId env;
     notificationInvalid := notificationInvalid env;
     detectEventChanges := detectEventChanges env;
     dbFails := dbFails env;
     logActivityThrows := logActivityThrows env |}.

Definition with_notificationInvalid (invalid : Notification.t → bool) (env : Env) : Env :=
  {| STORAGE_TYPE := STORAGE_TYPE env;
     s3Client := s3Client env;
     randomHex := randomHex env;
     cloudinary := cloudinary env;
     castEvent := castEvent env;
     castEventUpdate := castEventUpdate env;
     newEventId := newEventId env;
     notificationInvalid := invalid;
     detectEventChanges := detectEventChanges env;
     dbFails := dbFails env;
     logActivityThrows := logActivityThrows env |}.

(** Two worlds that differ at most in the bucket and in the trace. *)
Definition eqv (w1 w2 : World) : Prop :=
  db w1 = db w2 ∧ txn w1 = txn w2 ∧ tmpfiles w1 = tmpfiles w2 ∧ activity w1 = activity w2.

Definition related {A} (R : World → World → Prop) (o1 o2 : outcome A) : Prop :=
  match o1, o2 with
  | Returns a1 w1, Returns a2 w2 => a1 = a2 ∧ R w1 w2
  | Throws e1 w1, Throws e2 w2 => e1 = e2 ∧ R w1 w2
  | _, _ => False
  end.

(** From worlds related by [R], the two programs end alike, in worlds
    related by [R']. *)
Definition sim {A} (R R' : World → World → Prop) (p q : Prog A) : Prop :=
  ∀ w1 w2, R w1 w2 → related R' (p w1) (q w2).

Definition sub (R R' : World → World → Prop) : Prop := ∀ w1 w2, R w1 w2 → R' w1 w2.

(** [post o Q E]: the outcome [o] satisfies [Q] when it returns and [E] when
    it throws. *)
Definition post {A} (o : outcome A) (Q : A → World → Prop) (E : exn → World → Prop) : Prop :=
  match o with
  | Returns a w => Q a w
  | Throws e w => E e w
  end.

(** What [getEvent] answers. *)
Definition fetched (env : Env) (req : Req.t) (w : World) : Response :=
  if dbFails env CallEventFindById
  then {| status := 500; json := BFailure "Failed to fetch event" DbError |}
  else
    match events (db w) !! Req.eventId req with
    | None => {| status := 404; json := BError "Event not found" |}
    | Some f =>
        let e := populate (db w) (Req.eventId req) f in
        {| status := 200; json := BEvent (Some (if is_s3 env then signed env e else e)) |}
    end.

(** Outward effects that are uploads only. *)
Definition uploads_only (m : list Effect) : Prop := Forall (λ e, ∃ key, e = MediaPut key) m.

(** The entry [updateEvent] writes to the activity log. *)
Definition update_entry (req : Req.t) (title : jsval) : LogEntry :=
  {| actor := Req.userId req; action := "updated"; entityType := "event";
     entityId := Req.eventId req; eventTitle := title |}.

(** What [addSignedUrlsToEvents] makes of a list. *)
Definition signed_list (env : Env) (es : list Event.t) : list Event.t :=
  if is_s3 env then signed env <$> es else es.

(** The events of the approved participations of a user. *)
Definition joined_ids (d : Db) (participantId : jsval) : list string :=
  Participation.event <$>
    filter (λ p, VStr (Participation.user p) = participantId
                 ∧ Participation.status p = "approved")
           (participations d).

(** [upost o Q E]: the same for an outcome of the user controller. *)
Definition upost {A} (o : uoutcome A) (Q : A → Site → Prop) (E : uexn → Site → Prop) : Prop :=
  match o with
  | UReturns a s => Q a s
  | UThrows e s => E e s
  end.

(** The user documents a response carries. *)
Definition users_in (r : UResponse) : list Account.t :=
  match ujson r with
  | UUser u | UAvatar _ _ u => [u]
  | UUsers us => us
  | _ => []
  end.

(** What [addSignedUrlsToUsers] makes of one document. *)
Definition usigned (uenv : UEnv) (u : Account.t) : Account.t :=
  if JS.truthy (Account.avatar u)
  then set_avatarUrl (signed_url (base_env uenv) (Account.avatar u) None) u
  else u.

(** What [getUser] answers. *)
Definition fetched_user (uenv : UEnv) (req : UReq.t) (s : Site) : UResponse :=
  if userDbFails uenv CallUserFindById
  then {| ustatus := 500; ujson := UFailure (Raised DbError) None |}
  else
    match accounts s !! UReq.id req with
    | None => {| ustatus := 404; ujson := UMessage "User not found" |}
    | Some doc =>
        let u := without_password (UReq.id req) doc in
        {| ustatus := 200;
           ujson := UUser (if is_s3 (base_env uenv) then usigned uenv u else u) |}
    end.

(** The User schema stores a password hash as it is given. *)
Definition schema_keeps_password (uenv : UEnv) : Prop :=
  ∀ d d', castUser uenv d = Some d' → d' !! "password" = d !! "password".

(** * A concrete installation

    Event E of organizer Alice, capacity 50 under a ceiling of 100, with two
    approved participations and a pending one; an S3 client that accepts
    every request, as the service does for the deletion of a key it does
    not hold; a change detector that looks at the title. *)

Module Scenario.

Definition s3 : S3Client :=
  {| put_rejects := λ _ _, false;
     delete_rejects := λ _ _, false;
     presign := λ key ttl,
       Some ("https://bucket.s3.amazonaws.com/" +:+ JS.to_string key
             +:+ "?X-Amz-Expires=" +:+ pretty ttl) |}.

Definition title_changed (existing : Event.t) (update : Doc) : jsval :=
  match update !! "title" with
  | Some t => VBool (bool_decide (t ≠ Event.title existing))
  | None => VBool false
  end.

Definition env : Env :=
  {| STORAGE_TYPE := Some "s3";
     s3Client := s3;
     randomHex := λ _, "ab12";
     cloudinary := λ _, Some (Some "https://res.cloudinary.com/demo/x.png");
     castEvent := Some;
     castEventUpdate := λ _, Some;
     newEventId := "e2";
     notificationInvalid := λ _, false;
     detectEventChanges := title_changed;
     dbFails := λ _, false;
     logActivityThrows := false |}.

Definition alice : User.t :=
  {| User._id := "u1"; User.firstName := "Alice"; User.lastName := "Ng";
     User.email := "alice@example.org" |}.

Definition E : Doc :=
  {[ "title" := VStr "Meetup"; "organizer" := VStr "u1"; "maxAttendees" := VNum 50;
     "image" := VStr "uploads/old"; "status" := VStr "upcoming";
     "publicity" := VBool true ]}.

Definition p1 : Participation.t :=
  {| Participation._id := "p1"; Participation.user := "u2";
     Participation.event := "e1"; Participation.status := "approved" |}.
Definition p2 : Participation.t :=
  {| Participation._id := "p2"; Participation.user := "u3";
     Participation.event := "e1"; Participation.status := "approved" |}.
Definition p3 : Participation.t :=
  {| Participation._id := "p3"; Participation.user := "u4";
     Participation.event := "e1"; Participation.status := "pending" |}.

Definition store : Db :=
  {| events := {[ "e1" := E ]};
     users := {[ "u1" := alice ]};
     participations := [p1; p2; p3];
     notifications := [];
     settings :=
       Some {| Settings.eventSettings :=
                 Some {| Settings.maxAttendeesPerEvent := VNum 100 |} |} |}.

Definition w0 : World :=
  {| db := store; txn := None;
     bucket := {[ "uploads/old" := ("old bytes", "image/png") ]};
     tmpfiles := ∅; activity := []; trace := [] |}.

Definition request (body : Doc) (file : option File) : Req.t :=
  {| Req.eventId := "e1"; Req.body := body; Req.query := ∅;
     Req.file := file; Req.userId := "u1" |}.

Definition png : File := {| buffer := "new bytes"; mimetype := "image/png"; path := None |}.

(** The update requests of the scenarios. *)
Definition title_only : Req.t := request {[ "title" := VStr "Meetup 2" ]} None.
Definition over_capacity : Req.t := request {[ "maxAttendees" := VNum 150 ]} None.
Definition new_image : Req.t := request {[ "title" := VStr "Meetup 2" ]} (Some png).
Definition new_image_over_capacity : Req.t :=
  request {[ "maxAttendees" := VStr "150" ]} (Some png).

(** The same installation on the Cloudinary backend, where multer keeps the
    uploaded file on disk until the controller removes it. *)
Definition env_cloudinary : Env := with_STORAGE_TYPE None env.

Definition on_disk : File :=
  {| buffer := ""; mimetype := "image/png"; path := Some "/tmp/upload_1" |}.

Definition w_disk : World := with_tmpfiles {[ "/tmp/upload_1"; "/tmp/upload_2" ]} w0.

End Scenario.

(** The accounts of the installation: Alice, the organizer of event E, with
    an avatar in the bucket, and Bob; a bcrypt that tags the password. *)
Module UScenario.

Definition uenv : UEnv :=
  {| base_env := Scenario.env;
     bcrypt_compare := λ data hash,
       match data, hash with
       | VStr d, VStr h => Some (String.eqb ("bcrypt:" +:+ d) h)
       | _, _ => None
       end;
     bcrypt_hash := λ data _,
       match data with
       | VStr d => Some ("bcrypt:" +:+ d)
       | _ => None
       end;
     castUser := Some;
     castUserQuery := λ _ v, Some v;
     userDbFails := λ _, false |}.

Definition with_userDbFails (fails : UserCall → bool) (uenv : UEnv) : UEnv :=
  {| base_env := base_env uenv;
     bcrypt_compare := bcrypt_compare uenv;
     bcrypt_hash := bcrypt_hash uenv;
     castUser := castUser uenv;
     castUserQuery := castUserQuery uenv;
     userDbFails := fails |}.

Definition alice : Doc :=
  {[ "firstName" := VStr "Alice"; "lastName" := VStr "Ng";
     "email" := VStr "alice@example.org"; "username" := VStr "alice";
     "password" := VStr "bcrypt:secret"; "avatar" := VStr "uploads/alice" ]}.

Definition bob : Doc :=
  {[ "firstName" := VStr "Bob"; "lastName" := VStr "Lee";
     "email" := VStr "bob@example.org"; "username" := VStr "bob";
     "password" := VStr "bcrypt:hunter2" ]}.

Definition site : Site :=
  {| world := with_bucket (<[ "uploads/alice" := ("alice bytes", "image/png") ]>
                             (bucket Scenario.w0)) Scenario.w0;
     accounts := {[ "u1" := alice; "u2" := bob ]} |}.

Definition request (id : string) (body : Doc) (file : option File) (userId : string)
  : UReq.t :=
  {| UReq.id := id; UReq.body := body; UReq.file := file; UReq.userId := userId |}.

End UScenario.

(** The scenario at work: a capacity of 150 against the ceiling 100 is
    answered 400, and the store stays as it was. *)
Example scenario_over_capacity :
  returned (updateEvent Scenario.env Scenario.over_capacity Scenario.w0)
  = Some (capacity_response (VNum 100))
  ∧ db (final_world (updateEvent Scenario.env Scenario.over_capacity Scenario.w0))
    = db Scenario.w0.
Proof. split; by vm_compute. Qed.

(** Numbers out of strings, as the comparison with the ceiling reads them. *)
Example to_number_examples :
  JS.to_number (VStr "150") = Some 150
  ∧ JS.to_number (VStr " 42 ") = Some 42
  ∧ JS.to_number (VStr "-7") = Some (-7)
  ∧ JS.to_number (VStr "") = Some 0
  ∧ JS.to_number (VStr "many") = None
  ∧ JS.gt (VStr "150") (VNum 100) = true
  ∧ JS.gt (VStr "many") (VNum 100) = false
  ∧ capacity_exceeded (VNum 0) (VNum (-1)) = false.
Proof. split_and!; by vm_compute. Qed.

(** * Reasoning about programs *)

Section Rules.
Context {A B : Type}.
Implicit Types (Q : A → World → Prop) (E : exn → World → Prop).

Lemma post_ret (a : A) w Q E : Q a w → post (ret a w) Q E.
Proof. done. Qed.

Lemma post_throw (e : exn) w Q E : E e w → post (throw (A:=A) e w) Q E.
Proof. done. Qed.

Lemma post_bind (m : Prog B) (f : B → Prog A) w Q E :
  post (m w) (λ b w1, post (f b w1) Q E) E → post (bind m f w) Q E.
Proof. unfold bind. by destruct (m w). Qed.

Lemma post_try_catch (body : Prog A) (handler : exn → Prog A) w Q E :
  post (body w) Q (λ e w1, post (handler e w1) Q E) → post (try_catch body handler w) Q E.
Proof. unfold try_catch. by destruct (body w). Qed.

Lemma post_finally (body : Prog A) (cleanup : World → World) w Q E :
  post (body w) (λ a w1, Q a (cleanup w1)) (λ e w1, E e (cleanup w1)) →
  post (finally body cleanup w) Q E.
Proof. unfold finally. by destruct (body w). Qed.

Lemma post_gets (f : World → A) w Q E : Q (f w) w → post (gets f w) Q E.
Proof. done. Qed.

Lemma post_db_call env (c : DbCall) (p : Prog A) w Q E :
  (dbFails env c = true → E DbError w) →
  (dbFails env c = false → post (p w) Q E) →
  post (db_call env c p w) Q E.
Proof. unfold db_call. destruct (dbFails env c); simpl; auto. Qed.

Lemma post_mono (o : outcome A) Q E (Q' : A → World → Prop) (E' : exn → World → Prop) :
  post o Q E → (∀ a w, Q a w → Q' a w) → (∀ e w, E e w → E' e w) → post o Q' E'.
Proof. destruct o; simpl; auto. Qed.

End Rules.

Lemma post_modify (f : World → World) w (Q : unit → World → Prop) E :
  Q () (f w) → post (modify f w) Q E.
Proof. done. Qed.

Lemma post_when (b : bool) (p : Prog unit) w (Q : unit → World → Prop) E :
  (b = true → post (p w) Q E) → (b = false → Q () w) → post (when b p w) Q E.
Proof. destruct b; simpl; auto. Qed.

(** What a program did, read off its outcome. *)
Lemma post_final {A} (o : outcome A) (P : World → Prop) :
  post o (λ _ w, P w) (λ _ w, P w) → P (final_world o).
Proof. by destruct o. Qed.

(** Projections of the world through its updates. *)
Ltac wsimpl_goal :=
  cbn [post final_world returned db txn bucket tmpfiles activity trace
       with_db with_txn with_bucket with_tmpfiles with_activity emit endSession
       session_db read_db write_db from_option id
       events users participations notifications settings
       with_events with_participations with_notifications
       status json fst snd].

Ltac wsimpl :=
  cbn [post final_world returned db txn bucket tmpfiles activity trace
       with_db with_txn with_bucket with_tmpfiles with_activity emit endSession
       session_db read_db write_db from_option id
       events users participations notifications settings
       with_events with_participations with_notifications
       status json fst snd] in *.

(** One step of symbolic execution of a program: a rule of the logic at a
    combinator, a case distinction at a test (unless a hypothesis already
    decides it), the definition at a primitive. *)
Ltac wp_case x :=
  first
    [ lazymatch x with
      | Some _ => idtac | None => idtac | (_, _) => idtac
      | true => idtac | false => idtac | inl _ => idtac | inr _ => idtac
      end; cbv beta iota
    | lazymatch goal with H : x = _ |- _ => rewrite H end
    | lazymatch x with
      | negb ?b => first [ lazymatch goal with H : b = _ |- _ => rewrite H end
                         | destruct b eqn:? ]
      | fmap ?f ?y => first [ lazymatch goal with H : y = _ |- _ => rewrite H end
                            | destruct y eqn:? ]
      | _ => destruct x eqn:?
      end ];
  cbn [negb]; try simpl (_ <$> Some _); try simpl (_ <$> None).

Ltac wp_head :=
  lazymatch goal with
  | |- post (bind _ _ _) _ _ => apply post_bind
  | |- post (ret _ _) _ _ => apply post_ret
  | |- post (respond _ _ _) _ _ => apply post_ret
  | |- post (throw _ _) _ _ => apply post_throw
  | |- post (try_catch _ _ _) _ _ => apply post_try_catch
  | |- post (finally _ _ _) _ _ => apply post_finally
  | |- post (when _ _ _) _ _ => apply post_when; intros ?
  | |- post (modify _ _) _ _ => apply post_modify
  | |- post (gets _ _) _ _ => apply post_gets
  | |- post (db_call _ _ _ _) _ _ => apply post_db_call; intros ?
  | |- post ((if ?b then _ else _) _) _ _ => wp_case b
  | |- post ((match ?x with _ => _ end) _) _ _ => wp_case x
  | |- post (if ?b then _ else _) _ _ => wp_case b
  | |- post (match ?x with _ => _ end) _ _ => wp_case x
  | |- post (Returns _ _) _ _ => cbn [post]
  | |- post (Throws _ _) _ _ => cbn [post]
  | |- post _ _ _ =>
      progress unfold startTransaction, abortTransaction, commitTransaction,
        Event_findById_populate, Event_findByIdAndUpdate, Event_save, Event_find,
        Settings_findOne, Participation_find_event, Participation_find_user,
        Participation_updateMany, Notification_create, logActivity,
        build_notifications, getSignedUrl,
        uploadToS3, uploadToCloudinary, cloudinary_request,
        readFileSync, unlinkSync, send_PutObject, send_DeleteObject, JS.falsy
  end; cbv beta zeta; wsimpl_goal.

Ltac wp := repeat wp_head.

(** ** The steps of the controller that never fail *)

Section Steps.
Variable env : Env.

Lemma deleteFromS3_run key w :
  deleteFromS3 env key w =
    if JS.falsy key then Returns false w
    else if delete_rejects (s3Client env) (bucket w) key
         then Returns false (emit (MediaDelete (JS.to_string key) false) w)
         else Returns true (emit (MediaDelete (JS.to_string key) true)
                              (with_bucket (delete (JS.to_string key) (bucket w)) w)).
Proof.
  unfold deleteFromS3, try_catch, bind, send_DeleteObject, ret.
  destruct (JS.falsy key); [done|].
  by destruct (delete_rejects _ _ _).
Qed.

Lemma getSignedUrlForKey_run key expiresIn w :
  getSignedUrlForKey env key expiresIn w = Returns (signed_url env key expiresIn) w.
Proof.
  unfold getSignedUrlForKey, signed_url, try_catch, bind, getSignedUrl, ret.
  destruct (JS.falsy key); [done|].
  by destruct (presign _ _ _).
Qed.

Lemma signed_id event : Event._id (signed env event) = Event._id event.
Proof. unfold signed. by destruct (JS.truthy _). Qed.

Lemma signed_fields event : Event.fields (signed env event) = Event.fields event.
Proof. unfold signed. by destruct (JS.truthy _). Qed.

Lemma sign_event_run event w : sign_event env event w = Returns (signed env event) w.
Proof.
  unfold sign_event, signed, bind, ret.
  destruct (JS.truthy _); [|done].
  by rewrite getSignedUrlForKey_run.
Qed.

Lemma mapM_sign_event_run events w :
  mapM (sign_event env) events w = Returns (signed env <$> events) w.
Proof.
  induction events as [|e es IH]; [done|].
  cbn [mapM]. unfold bind at 1. rewrite sign_event_run.
  unfold bind at 1. rewrite IH. done.
Qed.

Lemma addSignedUrlsToEvents_run events w :
  addSignedUrlsToEvents env events w =
    Returns (if is_s3 env then signed env <$> events else events) w.
Proof.
  unfold addSignedUrlsToEvents. destruct (is_s3 env); cbn [negb]; [|done].
  apply mapM_sign_event_run.
Qed.

Lemma addSignedUrlsToEvent_run event w :
  addSignedUrlsToEvent env (Some event) w =
    Returns (Some (if is_s3 env then signed env event else event)) w.
Proof.
  unfold addSignedUrlsToEvent. destruct (is_s3 env); cbn [negb]; [|done].
  unfold bind. by rewrite sign_event_run.
Qed.

Lemma remove_temp_file_run req w :
  ∃ fs, remove_temp_file req w = Returns () (with_tmpfiles fs w).
Proof.
  unfold remove_temp_file.
  assert (Returns () w = Returns () (with_tmpfiles (tmpfiles w) w)) as Hw
    by (by destruct w).
  repeat case_match; eauto.
Qed.

End Steps.
(** ** The media step *)

Lemma media_frame_eq env image w w1 m :
  db w1 = db w → txn w1 = txn w → activity w1 = activity w →
  trace w1 = trace w ++ m → Forall (media_effect env image) m →
  media_frame env image w w1.
Proof.
  destruct w1; simpl; intros; subst. eexists _, _, _; split; eauto.
Qed.

Lemma media_frame_refl env image w : media_frame env image w w.
Proof.
  apply (media_frame_eq _ _ _ _ []); try done. by rewrite app_nil_r.
Qed.

Lemma media_frame_trans env image w w1 w2 :
  media_frame env image w w1 → media_frame env image w1 w2 → media_frame env image w w2.
Proof.
  intros (b & fs & m & -> & Hm) (b' & fs' & m' & -> & Hm'); simpl.
  apply (media_frame_eq _ _ _ _ (m ++ m')); simpl; try done.
  - by rewrite app_assoc.
  - by apply Forall_app.
Qed.

Ltac media_frame_tac :=
  first
    [ apply media_frame_refl
    | apply (media_frame_eq _ _ _ _ []);
      [reflexivity | reflexivity | reflexivity | symmetry; apply app_nil_r | constructor]
    | eapply media_frame_eq;
      [reflexivity | reflexivity | reflexivity | reflexivity | repeat constructor; done ] ].

Lemma upload_spec env f image w :
  post (upload env f w)
    (λ k w1, is_key k ∧ media_frame env image w w1)
    (λ _ w1, media_frame env image w w1).
Proof.
  unfold upload.
  wp; wsimpl; try split; try (right; eauto; fail); try (by left).
  all: media_frame_tac.
Qed.

Lemma deleteOldImage_spec env image w :
  JS.truthy image = true →
  ∃ w1, deleteOldImage env image w = Returns () w1 ∧ media_frame env image w w1.
Proof.
  intros Himg. unfold deleteOldImage, JS.falsy, bind, ret. rewrite Himg. cbn [negb].
  destruct (is_s3 env) eqn:Hs3; [|eexists; split; [done|apply media_frame_refl]].
  rewrite deleteFromS3_run. unfold JS.falsy. rewrite Himg. cbn [negb].
  destruct (delete_rejects _ _ _); eexists; (split; [done|]); media_frame_tac.
Qed.

Lemma replace_media_spec env req existingEvent w :
  post (replace_media env req existingEvent w)
    (λ k w1, (Req.file req = None → k = VNull)
             ∧ (k = VNull ∨ is_key k)
             ∧ media_frame env (Event.image existingEvent) w w1)
    (λ _ w1, media_frame env (Event.image existingEvent) w w1).
Proof.
  unfold replace_media.
  destruct (Req.file req) as [f|]; [|simpl; eauto using media_frame_refl].
  apply post_bind.
  eapply post_mono; [apply (upload_spec _ _ (Event.image existingEvent))| |done].
  intros k w1 [Hk Hw1]. cbv beta.
  apply post_bind, post_when.
  - intros Himg. destruct (deleteOldImage_spec env _ w1 Himg) as (w2 & -> & Hw2).
    simpl. split_and!; [done|by right|by eapply media_frame_trans].
  - intros _. simpl. split_and!; [done|by right|done].
Qed.

Lemma replace_media_no_file env req existingEvent w :
  Req.file req = None → replace_media env req existingEvent w = Returns VNull w.
Proof. unfold replace_media. by intros ->. Qed.

Lemma self_app_nil {A} (t m : list A) : t = t ++ m → m = [].
Proof. intros Ht. apply (app_inv_head t). by rewrite app_nil_r. Qed.

(** ** The notification step *)

Lemma with_notifications_id d : with_notifications (notifications d ++ []) d = d.
Proof. destruct d. unfold with_notifications. simpl. by rewrite app_nil_r. Qed.

Lemma insert_ordered_ok env docs d d' :
  insert_ordered env docs d = (None, d') →
  d' = with_notifications (notifications d ++ docs) d
  ∧ Forall (λ n, notificationInvalid env n = false) docs.
Proof.
  revert d. induction docs as [|n docs IH]; intros d; cbn [insert_ordered].
  - intros [= <-]. by rewrite with_notifications_id.
  - destruct (notificationInvalid env n) eqn:Hn; [done|].
    intros [-> Hall]%IH. split; [|by constructor].
    unfold with_notifications. cbn. by rewrite <- app_assoc.
Qed.

Lemma with_txn_same w d : txn w = Some d → with_txn (Some d) w = w.
Proof. destruct w. simpl. by intros ->. Qed.

Lemma notify_participants_spec env req changes updatedEvent organizerId w d :
  txn w = Some d →
  let approved := approved_participations (Req.eventId req) d in
  let created := created_notifications changes updatedEvent organizerId approved in
  post (notify_participants env req changes updatedEvent organizerId w)
    (λ _ w1, w1 = with_txn (Some (with_notifications (notifications d ++ created) d)) w
             ∧ (created = [] ∨ ¬ batch_refused env created)
             ∧ List.length created
               = if JS.truthy changes then List.length approved else 0%nat)
    (λ _ w1, (∃ t, w1 = with_txn t w) ∧ JS.truthy changes = true).
Proof.
  intros Htxn approved created. subst approved created.
  unfold notify_participants, created_notifications, approved_participations.
  assert (w = with_txn (Some (with_notifications (notifications d ++ []) d)) w) as Hid
    by (by rewrite with_notifications_id, with_txn_same).
  assert (∃ t, w = with_txn t w) as Hw by (exists (txn w); by destruct w).
  apply post_when; [intros Hch; rewrite Hch|intros ->; by split_and!; [|left|]].
  wp; wsimpl; unfold session_db in *; rewrite ?Htxn in *; wsimpl; try done.
  - eauto.
  - simplify_eq.
    match goal with H : insert_ordered _ _ _ = _ |- _ =>
      apply insert_ordered_ok in H as [-> Hall] end.
    match goal with H : filter _ _ = _ |- _ => rewrite H end.
    split_and!; [done| |by rewrite length_fmap].
    right. intros [Hf|Hex]; [congruence|].
    apply Exists_exists in Hex as (n & Hn & Hinv).
    rewrite Forall_forall in Hall. specialize (Hall n Hn). congruence.
  - match goal with H : bool_decide _ = false |- _ =>
      apply bool_decide_eq_false in H; rename H into Hlen end.
    destruct (filter _ _) as [|p ps]; [|simpl in Hlen; lia].
    destruct (Event.organizer _); by split_and!; [|left|].
Qed.

(** ** The outcomes of [updateEvent] *)

Lemma post_returns {A} (o : outcome A) (P : A → World → Prop) :
  post o P (λ _ _, False) → ∃ a w', o = Returns a w' ∧ P a w'.
Proof. destruct o; simpl; [eauto|done]. Qed.

Lemma get_updateData_ne req imageKey existingEvent k :
  k ≠ "image" →
  JS.get (updateData req imageKey existingEvent) k = JS.get (Req.body req) k.
Proof. intros Hk. unfold updateData, JS.get. by rewrite lookup_insert_ne. Qed.

(** Symbolic execution through the steps that have a specification. *)
Ltac wp_block :=
  lazymatch goal with
  | |- post (replace_media ?env ?req ?e ?w) _ _ =>
      let Hspec := fresh "Hspec" in
      let Hw := fresh "Hw" in
      pose proof (replace_media_spec env req e w) as Hspec;
      let k := fresh "k" in
      let w1 := fresh "w" in
      let ex := fresh "ex" in
      destruct (replace_media env req e w) as [k w1|ex w1] eqn:Hmedia;
      cbn [post] in Hspec |- *;
      [ destruct Hspec as (Hnofile & Hkey & (bk & tf & m & Hw & Hm))
      | destruct Hspec as (bk & tf & m & Hw & Hm) ];
      rewrite Hw in *; clear Hw
  | |- post (remove_temp_file ?req ?w) _ _ =>
      let fs := fresh "fs" in
      destruct (remove_temp_file_run req w) as [fs ->]; cbn [post]
  | |- post (addSignedUrlsToEvent _ (Some _) _) _ _ =>
      rewrite addSignedUrlsToEvent_run; cbn [post]
  | |- post (notify_participants _ _ _ _ _ _) _ _ =>
      eapply post_mono;
      [ eapply notify_participants_spec; wsimpl; reflexivity
      | intros ? ? (-> & ? & ?)
      | intros ? ? [[? ->] ?] ];
      cbv beta
  end.

Ltac wp_all := repeat (first [wp_head | wp_block]).

Ltac media_effects_tac :=
  first
    [ by constructor
    | unfold old_image;
      match goal with H : events _ !! _ = Some _ |- _ => rewrite H end;
      assumption ].

Lemma trace_shape_nil (t : list Effect) (e : Effect) :
  (t ++ [TxnStart]) ++ [e] = t ++ TxnStart :: [] ++ [e].
Proof. by rewrite <- app_assoc. Qed.

Lemma trace_shape_media (t m : list Effect) (e : Effect) :
  ((t ++ [TxnStart]) ++ m) ++ [e] = t ++ TxnStart :: m ++ [e].
Proof. by rewrite <- !app_assoc. Qed.

(** The effects [m] found along a path are those of the media step. *)
Ltac media_trace_tac :=
  split;
  [ first
      [ reflexivity
      | let Hnone := fresh "Hnone" in
        intros Hnone;
        match goal with
        | H : replace_media _ _ _ ?W = _ |- _ =>
            rewrite (replace_media_no_file _ _ _ _ Hnone) in H;
            first [ discriminate H
                  | injection H; intros; eapply self_app_nil; eassumption ]
        end ]
  | let old := fresh "old" in
    let Hf := fresh "Hf" in
    let Hl := fresh "Hl" in
    intros old Hf Hl;
    first
      [ congruence
      | match goal with
        | Hold : events _ !! _ = Some _ |- _ =>
            rewrite Hold in Hl; injection Hl as <-
        end;
        match goal with
        | H : replace_media _ _ _ ?W = _ |- context [started ?w] =>
            change (started w) with W; rewrite H; reflexivity
        end ] ].

Ltac aborted_tac :=
  eapply Aborted;
  wsimpl;
  [ reflexivity
  | reflexivity
  | first [apply trace_shape_nil | apply trace_shape_media]
  | media_effects_tac
  | media_trace_tac
  | done
  | first [ by intros ? [=]
          | intros ? _; eexists; split_and!; [eassumption|reflexivity|assumption] ] ].

Lemma updateEvent_outcome env req w :
  ∃ r w', updateEvent env req w = Returns r w' ∧ update_outcome env req w r w'.
Proof.
  apply post_returns. unfold updateEvent.
  wp_all; wsimpl; rewrite ?get_updateData_ne in * by done.
  all: try aborted_tac.
  eapply Committed; wsimpl; try eassumption; try reflexivity.
  - apply trace_shape_media.
  - media_effects_tac.
  - media_trace_tac.
Qed.

(** * The storage adapter *)

(** C8. The sign operation never raises: it answers null when the key is
    falsy and when signing fails, and otherwise the URL the presigner issued
    for the key and the time to live (3600 seconds by default); it changes
    nothing. *)
Theorem sign_null_or_url (env : Env) (key : jsval) (expiresIn : option Z) (w : World) :
  ∃ v, getSignedUrlForKey env key expiresIn w = Returns v w
       ∧ (JS.falsy key = true → v = VNull)
       ∧ (presign (s3Client env) key (default 3600 expiresIn) = None → v = VNull)
       ∧ (∀ url, JS.falsy key = false →
                 presign (s3Client env) key (default 3600 expiresIn) = Some url →
                 v = VStr url).
Proof.
  exists (signed_url env key expiresIn). split; [apply getSignedUrlForKey_run|].
  unfold signed_url. split_and!.
  - by intros ->.
  - intros ->. by destruct (JS.falsy key).
  - by intros url -> ->.
Qed.

(** C7, as stated, fails: the delete operation does not look whether the key
    exists, it forwards the request; the service accepts the deletion of a
    key it does not hold, and the answer is true. *)
Lemma delete_missing_key_returns_true :
  bucket Scenario.w0 !! "uploads/missing" = None
  ∧ deleteFromS3 Scenario.env (VStr "uploads/missing") Scenario.w0
    = Returns true
        (emit (MediaDelete "uploads/missing" true)
           (with_bucket (delete "uploads/missing" (bucket Scenario.w0)) Scenario.w0)).
Proof. split; [by vm_compute|]. by rewrite deleteFromS3_run. Qed.

(** C7, amended. The delete operation never throws; it answers false exactly
    when the key is falsy or the service rejects the request, true
    otherwise, whether or not the bucket holds the key; it touches neither
    the database nor the transaction. *)
Theorem delete_never_throws (env : Env) (key : jsval) (w : World) :
  ∃ b w', deleteFromS3 env key w = Returns b w'
          ∧ (b = false ↔ JS.falsy key = true
                         ∨ delete_rejects (s3Client env) (bucket w) key = true)
          ∧ db w' = db w ∧ txn w' = txn w.
Proof.
  rewrite deleteFromS3_run.
  destruct (JS.falsy key); [|destruct (delete_rejects _ _ _)];
    eexists _, _; (split; [reflexivity|]); split_and!; try done.
  - split; [by left|done].
  - split; [by right|done].
  - split; [done|by intros [?|?]].
Qed.

(** * The update transaction *)







(** ** Occurrences in a string *)







(** ** Notification fan-out *)




(** ** The image key through an update *)

Lemma truthy_VStr (s : string) : JS.truthy (VStr s) = true ↔ s ≠ "".
Proof.
  cbn [JS.truthy]. by destruct (String.eqb_spec s ""); cbn [negb]; split.
Qed.

(** C9. The update sets [image] to the key of the upload if there is one
    and to the existing key otherwise, over whatever the body says. So,
    with a schema that stores image keys as given: after a request without
    a file the stored image key is the one from before the request; and
    after any request an event that had a non-empty image key still has
    one. *)
Theorem no_file_keeps_image (env : Env) (req : Req.t) (w : World) (old : Doc) (s : string) :
  let w' := final_world (updateEvent env req w) in
  schema_keeps_image_keys env →
  events (db w) !! Req.eventId req = Some old →
  JS.get old "image" = VStr s →
  (∀ e, updateData req VNull e !! "image" = Some (Event.image e))
  ∧ (Req.file req = None →
     ∃ new, events (db w') !! Req.eventId req = Some new ∧ JS.get new "image" = VStr s)
  ∧ (s ≠ "" →
     ∃ new s', events (db w') !! Req.eventId req = Some new
               ∧ JS.get new "image" = VStr s' ∧ s' ≠ "").
Proof.
  intros w' Hschema Hold Himg. subst w'.
  split; [intros e; unfold updateData; by rewrite lookup_insert_eq|].
  destruct (updateEvent_outcome env req w) as (r & w' & -> & Hout). cbn [final_world].
  destruct Hout as [m Hdb _ _ _ _ _ _
                   |old' k org es u m ex upd d ue created Hold' _ Hk Hkey _ _ Hcast _ _ Hdb _ _ _ _ _].
  { rewrite Hdb. split; [intros _; by exists old|intros Hs; by exists old, s]. }
  rewrite Hold in Hold'. injection Hold' as <-.
  assert (events (db w') !! Req.eventId req = Some (u ∪ old)) as Hnew
    by (rewrite Hdb; subst d; wsimpl; by rewrite lookup_insert_eq).
  assert (∀ s', JS.or k (VStr s) = VStr s' → JS.get (u ∪ old) "image" = VStr s') as Hget.
  { intros s' Hor.
    assert (u !! "image" = Some (VStr s')) as Hu.
    { eapply Hschema; [exact Hcast|].
      subst upd ex. unfold updateData. rewrite lookup_insert_eq.
      unfold Event.image, populate. cbn [Event.fields]. by rewrite Himg, Hor. }
    unfold JS.get. by rewrite (lookup_union_Some_l _ _ _ _ Hu). }
  split.
  - intros Hnone. exists (u ∪ old). split; [done|]. apply Hget. by rewrite (Hk Hnone).
  - intros Hs. exists (u ∪ old).
    destruct Hkey as [->|[->|[s2 ->]]].
    + exists s. by split_and!; [|apply Hget|].
    + exists s. by split_and!; [|apply Hget|].
    + unfold JS.or in Hget. destruct (JS.truthy (VStr s2)) eqn:Ht.
      * exists s2. split_and!; [done|by apply Hget|by apply truthy_VStr].
      * exists s. by split_and!; [|apply Hget|].
Qed.

(** C9 in the scenario: a request without a file whose body asks for another
    image leaves the key of E as it was. *)
Lemma no_file_keeps_image_witness :
  let req := Scenario.request {[ "image" := VNull; "title" := VStr "Meetup 2" ]} None in
  let w' := final_world (updateEvent Scenario.env req Scenario.w0) in
  status <$> returned (updateEvent Scenario.env req Scenario.w0) = Some 200
  ∧ ∃ new, events (db w') !! "e1" = Some new ∧ JS.get new "image" = VStr "uploads/old".
Proof.
  intros req w'. split; [by vm_compute|].
  refine (proj1 (proj2
    (no_file_keeps_image Scenario.env req Scenario.w0 Scenario.E "uploads/old" _ _ _)) _).
  - by intros u u' s [= ->].
  - reflexivity.
  - reflexivity.
  - reflexivity.
Defined.

(** ** The capacity policy *)



Lemma replace_media_returns env req existingEvent w :
  (∀ f, Req.file req = Some f → is_Some (returned (upload env f w))) →
  ∃ k w1, replace_media env req existingEvent w = Returns k w1
          ∧ media_frame env (Event.image existingEvent) w w1.
Proof.
  intros Hup. unfold replace_media.
  destruct (Req.file req) as [f|]; [|eexists _, _; split; [done|apply media_frame_refl]].
  specialize (Hup f eq_refl).
  pose proof (upload_spec env f (Event.image existingEvent) w) as Hspec.
  unfold bind at 1. destruct (upload env f w) as [k w1|]; [|by destruct Hup].
  destruct Hspec as [_ Hw1]. unfold bind, when, ret.
  destruct (JS.truthy (Event.image existingEvent)) eqn:Himg;
    [|eexists _, _; split; [done|exact Hw1]].
  destruct (deleteOldImage_spec env _ w1 Himg) as (w2 & -> & Hw2).
  eexists _, _; split; [done|]. by eapply media_frame_trans.
Qed.

(** Symbolic execution along a path whose steps are known. *)
Ltac wp_known :=
  first
    [ lazymatch goal with
      | |- post (db_call ?env ?c _ _) _ _ =>
          lazymatch goal with
          | H : dbFails env c = false |- _ => unfold db_call at 1; rewrite H
          | H : dbFails env c = true |- _ => unfold db_call at 1; rewrite H
          end
      end
    | lazymatch goal with
      | |- post ?p _ _ =>
          lazymatch goal with H : p = _ |- _ => rewrite H; cbn [post] end
      end ].

Ltac wp_fwd := repeat (first [wp_known | wp_head | wp_block]).





(** ** Creation *)

Ltac wp_upload :=
  lazymatch goal with
  | |- post (upload _ _ _) _ _ =>
      eapply post_mono;
      [ apply (upload_spec _ _ VNull)
      | intros ? ? (Hkey & (bk & tf & m & -> & Hm))
      | intros ? ? (bk & tf & m & -> & Hm) ];
      cbv beta
  end.

Ltac wp_create := repeat (first [wp_known | wp_head | wp_block | wp_upload]).

(** [createEvent] never throws; it answers the capacity error only when the
    capacity test holds; and when it answers 201 the store has one more
    event, whose fields the schema made of [new_event_fields]. *)
Lemma createEvent_outcome env req w :
  post (createEvent env req w)
    (λ r w',
       (∀ msg, json r = BMessage msg →
          ∃ es, settings (db w) ≫= Settings.eventSettings = Some es
                ∧ r = create_capacity_response (Settings.maxAttendeesPerEvent es)
                ∧ capacity_exceeded (JS.get (Req.body req) "maxAttendees")
                                    (Settings.maxAttendeesPerEvent es) = true)
       ∧ (status r = 201 →
          ∃ es imageKey stored,
            settings (db w) ≫= Settings.eventSettings = Some es
            ∧ (Req.file req = None → imageKey = VNull)
            ∧ castEvent env (new_event_fields req (Settings.maxAttendeesPerEvent es) imageKey)
              = Some stored
            ∧ db w' = with_events (<[newEventId env := stored]> (events (db w))) (db w)))
    (λ _ _, False).
Proof.
  unfold createEvent. wp_create; wsimpl.
  all: rewrite ?lookup_insert_eq; try simpl (_ <$> Some _); wp_create; wsimpl.
  all: try (split; [by intros ? [=]|by intros [=]]).
  all: try (split; [intros ? _; by eexists|by intros [=]]).
  all: split; [by intros ? [=]|intros _].
  all: eexists _, _, _; split_and!; [done|idtac|eassumption|done]; done.
Qed.

(** C10. The capacity test is [maxAttendees && maxAttendees > maxAllowed]:
    a falsy [maxAttendees] (absent, 0, the empty string) is never compared
    with the ceiling, whatever the ceiling. So neither an update nor a
    creation with a falsy [maxAttendees] is answered with the capacity
    error; and a creation that succeeds hands the ceiling to the schema as
    the capacity of the new event, which is then stored with the ceiling as
    its capacity when the schema stores a numeric capacity as given. *)
Theorem falsy_capacity_is_not_checked (env : Env) (req : Req.t) (w : World) :
  let maxAttendees := JS.get (Req.body req) "maxAttendees" in
  (Req.body req !! "maxAttendees" = None
   ∨ Req.body req !! "maxAttendees" = Some (VNum 0)
   ∨ Req.body req !! "maxAttendees" = Some (VStr "") →
   JS.falsy maxAttendees = true)
  ∧ (JS.falsy maxAttendees = true →
     (∀ maxAllowed, capacity_exceeded maxAttendees maxAllowed = false)
     ∧ (∀ r msg, returned (updateEvent env req w) = Some r → json r ≠ BMessage msg)
     ∧ (∀ r, returned (createEvent env req w) = Some r →
        (∀ msg, json r ≠ BMessage msg)
        ∧ (status r = 201 →
           ∃ es imageKey stored,
             settings (db w) ≫= Settings.eventSettings = Some es
             ∧ new_event_fields req (Settings.maxAttendeesPerEvent es) imageKey
                 !! "maxAttendees" = Some (Settings.maxAttendeesPerEvent es)
             ∧ castEvent env (new_event_fields req (Settings.maxAttendeesPerEvent es) imageKey)
               = Some stored
             ∧ events (db (final_world (createEvent env req w))) !! newEventId env
               = Some stored
             ∧ (schema_keeps_capacity env →
                ∀ c, Settings.maxAttendeesPerEvent es = VNum c →
                     JS.get stored "maxAttendees" = VNum c)))).
Proof.
  intros maxAttendees. subst maxAttendees. split.
  { unfold JS.get. by intros [->|[->| ->]]. }
  intros Hfalsy.
  assert (∀ maxAllowed,
            capacity_exceeded (JS.get (Req.body req) "maxAttendees") maxAllowed = false) as Hno.
  { intros c. unfold capacity_exceeded. unfold JS.falsy in Hfalsy.
    by apply negb_true_iff in Hfalsy as ->. }
  split_and!; [done| |].
  - intros r msg.
    destruct (updateEvent_outcome env req w) as (r' & w' & -> & Hout). intros [= ->] Hjson.
    destruct Hout as [m _ _ _ _ _ _ Hmsg
                     |old k org es u m ex upd d ue created _ _ _ _ _ _ _ _ _ _ _ _ _ _ ->];
      [|done].
    destruct (Hmsg msg Hjson) as (es & _ & _ & Hyes). by rewrite Hno in Hyes.
  - intros r Hr. pose proof (createEvent_outcome env req w) as Hpost.
    destruct (createEvent env req w) as [r' w'|]; [|done].
    injection Hr as ->. cbn [post final_world] in *. destruct Hpost as [Hmsg Hok]. split.
    + intros msg Hjson. destruct (Hmsg msg Hjson) as (es & _ & _ & Hyes). by rewrite Hno in Hyes.
    + intros Hst. destruct (Hok Hst) as (es & k & stored & Hes & _ & Hcast & Hdb).
      assert (new_event_fields req (Settings.maxAttendeesPerEvent es) k !! "maxAttendees"
              = Some (Settings.maxAttendeesPerEvent es)) as Hfield.
      { unfold new_event_fields. rewrite lookup_insert_ne, lookup_insert_eq by done.
        unfold JS.or. unfold JS.falsy in Hfalsy. by apply negb_true_iff in Hfalsy as ->. }
      exists es, k, stored. split_and!; try done.
      * rewrite Hdb. wsimpl. by rewrite lookup_insert_eq.
      * intros Hschema c Hc. eapply Hschema; [exact Hcast|].
        unfold JS.get. by rewrite Hfield, Hc.
Qed.

(** C10 in the scenario: an update with [maxAttendees = 0] is not answered
    with the capacity error, and a creation with [maxAttendees = 0] stores
    an event of capacity 100, the ceiling. *)
Lemma falsy_capacity_is_not_checked_witness :
  let req := Scenario.request {[ "title" := VStr "Workshop"; "maxAttendees" := VNum 0 ]} None in
  status <$> returned (updateEvent Scenario.env req Scenario.w0) = Some 200
  ∧ status <$> returned (createEvent Scenario.env req Scenario.w0) = Some 201
  ∧ ∃ stored,
      events (db (final_world (createEvent Scenario.env req Scenario.w0))) !! "e2"
      = Some stored
      ∧ JS.get stored "maxAttendees" = VNum 100.
Proof.
  intros req. split_and!; [by vm_compute|by vm_compute|].
  destruct (proj2 (falsy_capacity_is_not_checked Scenario.env req Scenario.w0)) as (_ & _ & Hc).
  { by vm_compute. }
  destruct (Hc (default {| status := 0; json := BError "" |}
                  (returned (createEvent Scenario.env req Scenario.w0))))
    as (_ & Hok).
  { by vm_compute. }
  destruct Hok as (es & k & stored & Hes & _ & _ & Hst & Hkeep).
  { by vm_compute. }
  exists stored. split; [exact Hst|]. apply Hkeep.
  - intros d d' c [= ->]. done.
  - vm_compute in Hes. by injection Hes as <-.
Defined.

(** * Soft deletion and listings *)

Lemma update_status_ids eventId status ps :
  Participation._id <$> update_status_of_event eventId status ps = Participation._id <$> ps.
Proof.
  unfold update_status_of_event. rewrite <- list_fmap_compose.
  apply list_fmap_ext. intros _ p _. simpl. by destruct (decide _).
Qed.

Lemma update_status_cascade eventId status ps :
  Forall (λ p, Participation.event p = eventId → Participation.status p = status)
         (update_status_of_event eventId status ps).
Proof.
  unfold update_status_of_event. apply Forall_fmap, Forall_forall. intros p _. simpl.
  by destruct (decide _).
Qed.

Lemma elem_of_found d cond e :
  e ∈ found d cond →
  events d !! Event._id e = Some (Event.fields e)
  ∧ cond (Event._id e) (Event.fields e) = true.
Proof.
  unfold found. intros ([id doc] & -> & [Hc Hin]%list_elem_of_filter)%list_elem_of_fmap.
  apply elem_of_map_to_list in Hin. cbn in *. split; [done|by apply Is_true_true].
Qed.

Lemma elem_of_signed_list env (es : list Event.t) e :
  e ∈ (if is_s3 env then signed env <$> es else es) →
  ∃ e0, e0 ∈ es ∧ Event._id e = Event._id e0 ∧ Event.fields e = Event.fields e0.
Proof.
  destruct (is_s3 env); [|by exists e].
  intros (e0 & -> & Hin)%list_elem_of_fmap. exists e0.
  by rewrite signed_id, signed_fields.
Qed.

Ltac wp_sign :=
  lazymatch goal with
  | |- post (addSignedUrlsToEvents _ _ _) _ _ =>
      rewrite addSignedUrlsToEvents_run; cbn [post]
  end.

(** [getAllEvent] reads only. Every event it lists is stored, and either
    passes the filter of the listing or is the event of an approved
    participation of the participant asked for. *)
Lemma getAllEvent_outcome env req w :
  post (getAllEvent env req w)
    (λ r w',
       w' = w
       ∧ ∀ e, e ∈ listed r →
           events (db w) !! Event._id e = Some (Event.fields e)
           ∧ (listing_filter (JS.get (Req.query req) "public")
                             (JS.get (Req.query req) "organizerId") (Event.fields e) = true
              ∨ JS.truthy (JS.get (Req.query req) "participantId") = true
                ∧ ∃ p, p ∈ participations (db w)
                       ∧ Participation.status p = "approved"
                       ∧ Participation.event p = Event._id e))
    (λ _ _, False).
Proof.
  unfold getAllEvent.
  repeat (first [wp_head | wp_sign]); wsimpl.
  all: try (split; [done|]; intros e; cbn [listed json]; by intros ?%elem_of_nil).
  all: split; [done|]; intros e He; cbn [listed json] in He.
  all: try apply elem_of_app in He as [He|He].
  all: apply elem_of_signed_list in He as (e0 & [Hst Hc]%elem_of_found & -> & ->).
  all: split; [done|].
  all: try (by left).
  all: right; split; [done|].
  all: apply bool_decide_eq_true in Hc.
  all: apply list_elem_of_fmap in Hc as (p & Hp & [[_ Happ] Hin]%list_elem_of_filter).
  all: by exists p.
Qed.

Ltac wp_delete_image :=
  lazymatch goal with
  | |- post (deleteOldImage ?env ?k ?w) _ _ =>
      lazymatch goal with
      | H : JS.truthy k = true |- _ =>
          let w2 := fresh "w" in
          destruct (deleteOldImage_spec env k w H) as (w2 & -> & (bk & tf & m & -> & Hm));
          cbn [post]
      end
  end.

Ltac wp_del := repeat (first [wp_known | wp_head | wp_delete_image]).

(** No run of [deleteEvent] removes a row. *)
Lemma deleteEvent_keeps_rows env req w :
  let w' := final_world (deleteEvent env req w) in
  dom (events (db w')) = dom (events (db w))
  ∧ Participation._id <$> participations (db w')
    = Participation._id <$> participations (db w).
Proof.
  apply (post_final _ (λ w', dom (events (db w')) = dom (events (db w))
                             ∧ Participation._id <$> participations (db w')
                               = Participation._id <$> participations (db w))).
  unfold deleteEvent. wp_del; wsimpl; rewrite ?update_status_ids; try done.
  all: split; [|done].
  all: rewrite dom_insert_L.
  all: match goal with H : events _ !! _ = Some _ |- _ => apply elem_of_dom_2 in H end.
  all: by apply subseteq_union_1_L, singleton_subseteq_l.
Qed.

(** A deletion that the database carries out. *)
Lemma deleteEvent_run env req w old u :
  events (db w) !! Req.eventId req = Some old →
  castEventUpdate env false {[ "status" := VStr "deleted" ]} = Some u →
  dbFails env CallEventFindByIdAndUpdate = false →
  dbFails env CallParticipationUpdateMany = false →
  let w' := final_world (deleteEvent env req w) in
  events (db w') = <[Req.eventId req := u ∪ old]> (events (db w))
  ∧ participations (db w')
    = update_status_of_event (Req.eventId req) "deleted" (participations (db w)).
Proof.
  intros Hold Hcast Hupd Hmany.
  apply (post_final _ (λ w', events (db w') = <[Req.eventId req := u ∪ old]> (events (db w))
                             ∧ participations (db w')
                               = update_status_of_event (Req.eventId req) "deleted"
                                   (participations (db w)))).
  unfold deleteEvent. wp_del; wsimpl; try done; congruence.
Qed.

Lemma listing_filter_deleted isPublic organizerId doc :
  JS.get doc "status" = VStr "deleted" → listing_filter isPublic organizerId doc = false.
Proof.
  intros Hst. unfold listing_filter. rewrite Hst.
  assert (nin ["deleted"] (VStr "deleted") = false) as -> by by vm_compute.
  assert (nin ["ended"; "cancelled"; "ongoing"; "deleted"] (VStr "deleted") = false) as ->
    by by vm_compute.
  destruct (JS.truthy isPublic); [|done]. by rewrite andb_false_r.
Qed.

(** C6. Deleting an event never removes a row: after any run of
    [deleteEvent] the store holds the same events and the same
    participations as before. When the event exists and the database
    carries the two updates out, the event is still there with status
    deleted, every participation of the event has status deleted, and no
    listing, whatever its parameters, shows the event again. A listing by
    the default filter (no participant asked for) never shows an event of
    status deleted, in any state of the store. The Event schema is taken to
    accept the status deleted in an update. *)
Theorem deletion_is_soft (env : Env) (req : Req.t) (w : World) :
  let w' := final_world (deleteEvent env req w) in
  (dom (events (db w')) = dom (events (db w))
   ∧ Participation._id <$> participations (db w')
     = Participation._id <$> participations (db w))
  ∧ (∀ old u,
       events (db w) !! Req.eventId req = Some old →
       castEventUpdate env false {[ "status" := VStr "deleted" ]} = Some u →
       JS.get u "status" = VStr "deleted" →
       dbFails env CallEventFindByIdAndUpdate = false →
       dbFails env CallParticipationUpdateMany = false →
       (∃ new, events (db w') !! Req.eventId req = Some new
               ∧ JS.get new "status" = VStr "deleted")
       ∧ Forall (λ p, Participation.event p = Req.eventId req →
                      Participation.status p = "deleted")
                (participations (db w'))
       ∧ (∀ env2 req2 r e,
            returned (getAllEvent env2 req2 w') = Some r →
            e ∈ listed r → Event._id e ≠ Req.eventId req))
  ∧ (∀ env2 req2 w2 r e,
       returned (getAllEvent env2 req2 w2) = Some r →
       JS.truthy (JS.get (Req.query req2) "participantId") = false →
       e ∈ listed r → Event.status e ≠ VStr "deleted").
Proof.
  intros w'. split; [apply deleteEvent_keeps_rows|]. split.
  - intros old u Hold Hcast Hst Hupd Hmany.
    destruct (deleteEvent_run env req w old u Hold Hcast Hupd Hmany) as [Hev Hps].
    fold w' in Hev, Hps.
    assert (JS.get (u ∪ old) "status" = VStr "deleted") as Hnew.
    { unfold JS.get in *. destruct (u !! "status") as [v|] eqn:Hu; [|done].
      by rewrite (lookup_union_Some_l _ _ _ _ Hu). }
    assert (events (db w') !! Req.eventId req = Some (u ∪ old)) as Hlook
      by (by rewrite Hev, lookup_insert_eq).
    split_and!.
    + by exists (u ∪ old).
    + rewrite Hps. apply update_status_cascade.
    + intros env2 req2 r e Hr He Hid.
      pose proof (getAllEvent_outcome env2 req2 w') as Hpost.
      destruct (getAllEvent env2 req2 w') as [r' w2|]; [|done].
      injection Hr as ->. destruct Hpost as [_ Hall].
      destruct (Hall e He) as [Hstored [Hfilter|(_ & p & Hp & Happ & Hpe)]].
      * rewrite Hid, Hlook in Hstored. injection Hstored as Hf.
        rewrite listing_filter_deleted in Hfilter; [done|by rewrite <- Hf].
      * rewrite Hps in Hp.
        pose proof (update_status_cascade (Req.eventId req) "deleted" (participations (db w)))
          as Hc.
        rewrite Forall_forall in Hc. specialize (Hc p Hp). rewrite Hpe, Hid in Hc.
        rewrite Hc in Happ; done.
  - intros env2 req2 w2 r e Hr Hnop He Hdel.
    pose proof (getAllEvent_outcome env2 req2 w2) as Hpost.
    destruct (getAllEvent env2 req2 w2) as [r' w3|]; [|done].
    injection Hr as ->. destruct Hpost as [_ Hall].
    destruct (Hall e He) as [_ [Hfilter|(Hyes & _)]]; [|congruence].
    by rewrite listing_filter_deleted in Hfilter.
Qed.

(** C6 in the scenario: after DELETE on E the row is still there with status
    deleted, its three participations have status deleted, and the listing
    of the events a participant joined, which does not filter by status,
    no longer shows E. *)
Lemma deletion_is_soft_witness :
  let req := Scenario.title_only in
  let w' := final_world (deleteEvent Scenario.env req Scenario.w0) in
  let joined := {| Req.eventId := ""; Req.body := ∅;
                   Req.query := {[ "participantId" := VStr "u2" ]};
                   Req.file := None; Req.userId := "u2" |} in
  (status <$> returned (deleteEvent Scenario.env req Scenario.w0) = Some 200
   ∧ (λ r, Event._id <$> listed r) <$> returned (getAllEvent Scenario.env joined Scenario.w0)
     = Some ["e1"]
   ∧ Participation.status <$> participations (db w') = ["deleted"; "deleted"; "deleted"])
  ∧ (∃ new, events (db w') !! Req.eventId req = Some new
            ∧ JS.get new "status" = VStr "deleted")
  ∧ Forall (λ p, Participation.event p = Req.eventId req →
                 Participation.status p = "deleted")
           (participations (db w'))
  ∧ ∀ env2 req2 r e, returned (getAllEvent env2 req2 w') = Some r →
                     e ∈ listed r → Event._id e ≠ Req.eventId req.
Proof.
  intros req w' joined. split; [split_and!; vm_compute; reflexivity|].
  exact (proj1 (proj2 (deletion_is_soft Scenario.env req Scenario.w0))
           Scenario.E {[ "status" := VStr "deleted" ]}
           eq_refl eq_refl eq_refl eq_refl eq_refl).
Defined.

(** * The deletion of the old image is best effort

    Two runs of a program are compared: one in which the storage service
    answers the deletion requests as [env] says, one in which it answers
    them by another policy. *)

Lemma sub_refl R : sub R R.
Proof. by intros ??. Qed.

Lemma sub_eq_eqv : sub eq eqv.
Proof. by intros ?? ->. Qed.

Section Sim.
Context {A B : Type}.
Implicit Types (R : World → World → Prop).

Lemma sim_ret R R' (a : A) : sub R R' → sim R R' (ret a) (ret a).
Proof. intros HR w1 w2 Hw. split; [done|by apply HR]. Qed.

Lemma sim_throw R R' (e : exn) : sub R R' → sim R R' (throw (A:=A) e) (throw e).
Proof. intros HR w1 w2 Hw. split; [done|by apply HR]. Qed.

Lemma sim_bind R R' R'' (m m' : Prog B) (f f' : B → Prog A) :
  sim R R' m m' → sub R' R'' → (∀ b, sim R' R'' (f b) (f' b)) →
  sim R R'' (bind m f) (bind m' f').
Proof.
  intros Hm HR Hf w1 w2 Hw. specialize (Hm w1 w2 Hw). unfold bind.
  destruct (m w1), (m' w2); cbn in Hm; try done; destruct Hm as [<- Hw'].
  - by apply Hf.
  - split; [done|by apply HR].
Qed.

Lemma sim_try_catch R R' R'' (body body' : Prog A) (h h' : exn → Prog A) :
  sim R R' body body' → sub R' R'' → (∀ e, sim R' R'' (h e) (h' e)) →
  sim R R'' (try_catch body h) (try_catch body' h').
Proof.
  intros Hb HR Hh w1 w2 Hw. specialize (Hb w1 w2 Hw). unfold try_catch.
  destruct (body w1), (body' w2); cbn in Hb; try done; destruct Hb as [<- Hw'].
  - split; [done|by apply HR].
  - by apply Hh.
Qed.

Lemma sim_finally R R' R'' (body body' : Prog A) (cleanup : World → World) :
  sim R R' body body' → (∀ w1 w2, R' w1 w2 → R'' (cleanup w1) (cleanup w2)) →
  sim R R'' (finally body cleanup) (finally body' cleanup).
Proof.
  intros Hb Hc w1 w2 Hw. specialize (Hb w1 w2 Hw). unfold finally.
  destruct (body w1), (body' w2); cbn in Hb; try done; destruct Hb as [<- Hw'];
    (split; [done|by apply Hc]).
Qed.

Lemma sim_weaken R0 R R' (p q : Prog A) : sub R0 R → sim R R' p q → sim R0 R' p q.
Proof. intros HR Hpq w1 w2 Hw. by apply Hpq, HR. Qed.

Lemma sim_same (p : Prog A) : sim eq eq p p.
Proof. intros w1 w2 <-. by destruct (p w1). Qed.

End Sim.

(** A step that reads and writes the world without looking at the bucket
    or the trace. *)
Ltac sim_step_tac :=
  let Hd := fresh in let Ht := fresh in let Hf := fresh in let Ha := fresh in
  intros [d1 t1 b1 f1 a1 tr1] [d2 t2 b2 f2 a2 tr2] (Hd & Ht & Hf & Ha);
  cbn [db txn tmpfiles activity] in Hd, Ht, Hf, Ha; subst;
  repeat match goal with x := _ : Env |- _ => subst x end;
  unfold related, eqv, abortTransaction, commitTransaction, Settings_findOne,
    Event_findByIdAndUpdate, logActivity, Participation_find_event, Notification_create,
    remove_temp_file, db_call, modify, gets, respond, ret, bind, throw, with_delete_policy;
  wsimpl_goal; cbn [dbFails castEventUpdate logActivityThrows notificationInvalid];
  repeat (case_match; simplify_eq; wsimpl_goal); try done.

Section BestEffort.
Variables (env : Env) (policy : gmap string (string * string) → jsval → bool) (req : Req.t).
Let env' := with_delete_policy policy env.

Lemma sim_abortTransaction : sim eqv eqv abortTransaction abortTransaction.
Proof. sim_step_tac. Qed.

Lemma sim_commitTransaction : sim eqv eqv (commitTransaction env') (commitTransaction env).
Proof. sim_step_tac. Qed.

Lemma sim_Settings_findOne : sim eqv eqv (Settings_findOne env') (Settings_findOne env).
Proof. sim_step_tac. Qed.

Lemma sim_Event_findByIdAndUpdate id update :
  sim eqv eqv (Event_findByIdAndUpdate env' true true id update)
              (Event_findByIdAndUpdate env true true id update).
Proof. sim_step_tac. Qed.

Lemma sim_logActivity a b c d e :
  sim eqv eqv (logActivity env' a b c d e) (logActivity env a b c d e).
Proof. sim_step_tac. Qed.

Lemma sim_remove_temp_file : sim eqv eqv (remove_temp_file req) (remove_temp_file req).
Proof. sim_step_tac. Qed.

Lemma sim_Participation_find_event id st :
  sim eqv eqv (Participation_find_event env' true id st) (Participation_find_event env true id st).
Proof. sim_step_tac. Qed.

Lemma insert_ordered_policy docs d : insert_ordered env' docs d = insert_ordered env docs d.
Proof.
  revert d. induction docs as [|n docs IH]; intros d; [done|].
  cbn [insert_ordered]. rewrite IH. done.
Qed.

Lemma sim_Notification_create docs :
  sim eqv eqv (Notification_create env' docs) (Notification_create env docs).
Proof.
  unfold Notification_create. intros w1 w2 Hw.
  assert (session_db w1 = session_db w2) as Hs
    by (unfold session_db; destruct Hw as (-> & -> & _); done).
  unfold db_call. change (dbFails env' CallNotificationCreate)
    with (dbFails env CallNotificationCreate).
  rewrite insert_ordered_policy, Hs.
  destruct (dbFails env CallNotificationCreate); [by split|].
  destruct (insert_ordered env docs (session_db w2)) as [[e|] d'];
    (split; [done|]); destruct Hw as (? & ? & ? & ?); by split_and!.
Qed.

Lemma sim_when (b : bool) (p q : Prog unit) :
  sim eqv eqv p q → sim eqv eqv (when b p) (when b q).
Proof.
  intros Hpq. destruct b; [exact Hpq|exact (sim_ret eqv eqv () (sub_refl eqv))].
Qed.

Lemma sim_build_notifications ue oid ps :
  sim eqv eqv (build_notifications ue oid ps) (build_notifications ue oid ps).
Proof.
  unfold build_notifications. destruct ps; [apply sim_ret, sub_refl|].
  destruct (Event.organizer ue); [apply sim_ret, sub_refl|apply sim_throw, sub_refl].
Qed.

Lemma sim_notify_participants changes ue oid :
  sim eqv eqv (notify_participants env' req changes ue oid)
              (notify_participants env req changes ue oid).
Proof.
  unfold notify_participants. apply sim_when.
  eapply sim_bind; [apply sim_Participation_find_event|apply sub_refl|intros ps].
  apply sim_when.
  eapply sim_bind; [apply sim_build_notifications|apply sub_refl|intros ns].
  apply sim_Notification_create.
Qed.

Lemma sim_addSignedUrlsToEvent e :
  sim eqv eqv (addSignedUrlsToEvent env' (Some e)) (addSignedUrlsToEvent env (Some e)).
Proof.
  intros w1 w2 Hw. rewrite !addSignedUrlsToEvent_run. by split.
Qed.

(** The media step: the same key or the same exception, whatever the
    service answers to the deletion. *)
Lemma sim_replace_media existingEvent :
  sim eq eqv (replace_media env' req existingEvent) (replace_media env req existingEvent).
Proof.
  intros w ? <-. unfold replace_media.
  destruct (Req.file req) as [f|]; [|by split].
  unfold bind at 1 3. change (upload env' f w) with (upload env f w).
  destruct (upload env f w) as [k w1|ex w1]; [|by split].
  unfold when, bind, ret, deleteOldImage.
  destruct (JS.truthy (Event.image existingEvent)) eqn:Himg; [|by split].
  unfold JS.falsy. rewrite Himg. cbn [negb].
  change (is_s3 env') with (is_s3 env). destruct (is_s3 env); [|by split].
  unfold bind, ret. rewrite !deleteFromS3_run. unfold JS.falsy. rewrite Himg. cbn [negb].
  by destruct (delete_rejects _ _ _), (delete_rejects _ _ _).
Qed.

Lemma sim_abort_respond st body :
  sim eqv eqv (bind abortTransaction (λ _, respond st body))
              (bind abortTransaction (λ _, respond st body)).
Proof.
  eapply sim_bind; [apply sim_abortTransaction|apply sub_refl|intros _].
  apply sim_ret, sub_refl.
Qed.

(** The whole update. *)
Lemma sim_updateEvent : sim eq eqv (updateEvent env' req) (updateEvent env req).
Proof.
  unfold updateEvent.
  eapply sim_bind; [apply sim_same|apply sub_eq_eqv|intros _].
  apply (sim_finally eq eqv eqv).
  2:{ intros w1 w2 (? & ? & ? & ?). by split_and!. }
  apply (sim_try_catch eq eqv eqv).
  3:{ intros e.
      eapply sim_bind; [apply sim_abortTransaction|apply sub_refl|intros _].
      eapply sim_bind; [apply sim_remove_temp_file|apply sub_refl|intros _].
      apply sim_ret, sub_refl. }
  2: apply sub_refl.
  eapply sim_bind; [apply (sim_same (Event_findById_populate env true (Req.eventId req)))
                   |apply sub_eq_eqv|intros existing].
  destruct existing as [existingEvent|];
    [|eapply sim_weaken; [apply sub_eq_eqv|apply sim_abort_respond]].
  eapply sim_bind; [apply sim_replace_media|apply sub_refl|intros imageKey].
  eapply sim_bind;
    [destruct (Event.organizer existingEvent); [apply sim_ret, sub_refl|apply sim_throw, sub_refl]
    |apply sub_refl|intros organizerId].
  cbv zeta.
  eapply sim_bind; [apply sim_Settings_findOne|apply sub_refl|intros settings].
  destruct (settings ≫= Settings.eventSettings) as [es|]; [|apply sim_abort_respond].
  destruct (capacity_exceeded _ _); [apply sim_abort_respond|].
  eapply sim_bind; [apply sim_Event_findByIdAndUpdate|apply sub_refl|intros updated].
  destruct updated as [[fields d]|]; [|apply sim_throw, sub_refl].
  eapply sim_bind; [apply sim_logActivity|apply sub_refl|intros _].
  eapply sim_bind; [apply sim_notify_participants|apply sub_refl|intros _].
  eapply sim_bind; [apply sim_commitTransaction|apply sub_refl|intros _].
  eapply sim_bind; [apply sim_addSignedUrlsToEvent|apply sub_refl|intros updatedEvent].
  apply sim_ret, sub_refl.
Qed.

End BestEffort.

(** * When the old image is deleted *)

(** On the S3 backend, with a file whose upload is accepted and an event
    that has an image, the media step uploads and then asks for the deletion
    of the old image. *)
Lemma replace_media_deletes env req existingEvent w f :
  is_s3 env = true →
  Req.file req = Some f →
  put_rejects (s3Client env) (bucket w) ("uploads/" +:+ randomImageName env None) = false →
  JS.truthy (Event.image existingEvent) = true →
  ∃ ok, trace (final_world (replace_media env req existingEvent w))
        = trace w ++ [MediaPut ("uploads/" +:+ randomImageName env None);
                      MediaDelete (JS.to_string (Event.image existingEvent)) ok].
Proof.
  intros Hs3 Hfile Hput Himg.
  unfold replace_media, upload, uploadToS3, send_PutObject, deleteOldImage, when, bind, ret,
    JS.falsy.
  rewrite Hfile, Hs3, Hput, Himg. cbn [negb]. rewrite deleteFromS3_run.
  unfold JS.falsy. rewrite Himg. cbn [negb].
  destruct (delete_rejects _ _ _); eexists; cbn; by rewrite <- app_assoc.
Qed.

(** C1, as stated, fails. With a new file for event E the deletion of the
    old key comes before the commit; and in a run that is aborted after the
    media step (the capacity is over the ceiling) the old key is deleted
    all the same: the bucket no longer holds it while the stored event
    still names it. *)
Lemma old_media_deleted_before_commit :
  trace (final_world (updateEvent Scenario.env Scenario.new_image Scenario.w0))
  = [TxnStart; MediaPut "uploads/ab12"; MediaDelete "uploads/old" true; TxnCommit]
  ∧ trace (final_world
             (updateEvent Scenario.env Scenario.new_image_over_capacity Scenario.w0))
    = [TxnStart; MediaPut "uploads/ab12"; MediaDelete "uploads/old" true; TxnAbort]
  ∧ bucket (final_world
              (updateEvent Scenario.env Scenario.new_image_over_capacity Scenario.w0))
      !! "uploads/old" = None
  ∧ (events (db (final_world
                   (updateEvent Scenario.env Scenario.new_image_over_capacity Scenario.w0)))
       !! "e1") ≫= (.!! "image") = Some (VStr "uploads/old").
Proof. split_and!; by vm_compute. Qed.

(** C1, amended. Between the start of the transaction and its end (commit
    or abort) the only outward effects of an update are those of the media
    step: uploads, and, on the S3 backend and for an event that has an
    image, the deletion of that old image; a request without a file has
    none, and nothing is deleted after the transaction has ended. When the
    request carries a file, the backend is S3, the upload is accepted and
    the event has an image, the deletion of the old image is requested
    right after the upload and before the transaction ends, whether it ends
    in a commit or in an abort. The deletion is best effort: whatever the
    service answers to it, the response and the resulting database are the
    same. *)
Theorem old_media_deleted_inside_transaction (env : Env) (req : Req.t) (w : World) :
  let w' := final_world (updateEvent env req w) in
  (∃ m e,
     trace w' = trace w ++ TxnStart :: m ++ [e]
     ∧ (e = TxnCommit ∨ e = TxnAbort)
     ∧ Forall (media_effect env (old_image req w)) m
     ∧ (Req.file req = None → m = []))
  ∧ (∀ old f,
       is_s3 env = true →
       Req.file req = Some f →
       dbFails env CallEventFindById = false →
       events (db w) !! Req.eventId req = Some old →
       put_rejects (s3Client env) (bucket w) ("uploads/" +:+ randomImageName env None) = false →
       JS.truthy (JS.get old "image") = true →
       ∃ ok e,
         trace w' = trace w ++ [TxnStart;
                                MediaPut ("uploads/" +:+ randomImageName env None);
                                MediaDelete (JS.to_string (JS.get old "image")) ok;
                                e]
         ∧ (e = TxnCommit ∨ e = TxnAbort))
  ∧ (∀ policy,
       returned (updateEvent (with_delete_policy policy env) req w)
       = returned (updateEvent env req w)
       ∧ db (final_world (updateEvent (with_delete_policy policy env) req w)) = db w').
Proof.
  intros w'. subst w'. split_and!.
  - destruct (updateEvent_outcome env req w) as (r & w' & -> & Hout). cbn [final_world].
    destruct Hout as [m _ _ Htr Hm [Hnone _] _ _
                     |old k org es u m ex upd d ue created _ _ _ _ _ _ _ _ _ _ _ Htr Hm
                        [Hnone _] _].
    + exists m, TxnAbort. split_and!; auto.
    + exists m, TxnCommit. split_and!; auto.
  - intros old f Hs3 Hfile Hfind Hold Hput Himg.
    destruct (replace_media_deletes env req (populate (db w) (Req.eventId req) old)
                (started w) f Hs3 Hfile Hput Himg) as [ok Hmedia].
    destruct (updateEvent_outcome env req w) as (r & w' & -> & Hout). cbn [final_world].
    assert (∀ m, media_trace env req w m →
                 m = [MediaPut ("uploads/" +:+ randomImageName env None);
                      MediaDelete (JS.to_string (JS.get old "image")) ok]) as Hm.
    { intros m [_ Hm]. specialize (Hm old Hfind Hold). rewrite Hmedia in Hm.
      symmetry. by apply app_inv_head in Hm. }
    destruct Hout as [m _ _ Htr _ Hmt _ _
                     |old' k org es u m ex upd d ue created _ _ _ _ _ _ _ _ _ _ _ Htr _ Hmt _].
    + exists ok, TxnAbort. rewrite Htr, (Hm m Hmt). split; [done|by right].
    + exists ok, TxnCommit. rewrite Htr, (Hm m Hmt). split; [done|by left].
  - intros policy.
    pose proof (sim_updateEvent env policy req w w eq_refl) as Hsim.
    destruct (updateEvent (with_delete_policy policy env) req w),
             (updateEvent env req w); cbn in Hsim; try done.
    + destruct Hsim as (-> & Hdb & _). by split.
    + destruct Hsim as (-> & Hdb & _). by split.
Qed.

(** C1 at work: in the scenario with a new file, a service that rejects
    the deletion changes neither the response nor the database. *)
Lemma old_media_deleted_inside_transaction_witness :
  let rejecting := with_delete_policy (λ _ _, true) Scenario.env in
  trace (final_world (updateEvent rejecting Scenario.new_image Scenario.w0))
  = [TxnStart; MediaPut "uploads/ab12"; MediaDelete "uploads/old" false; TxnCommit]
  ∧ returned (updateEvent rejecting Scenario.new_image Scenario.w0)
    = returned (updateEvent Scenario.env Scenario.new_image Scenario.w0)
  ∧ db (final_world (updateEvent rejecting Scenario.new_image Scenario.w0))
    = db (final_world (updateEvent Scenario.env Scenario.new_image Scenario.w0)).
Proof.
  intros rejecting. split; [by vm_compute|].
  exact (proj2 (proj2
    (old_media_deleted_inside_transaction Scenario.env Scenario.new_image Scenario.w0))
    (λ _ _, true)).
Defined.

(** * Further properties of the event controller *)

Lemma getEvent_run env req w : getEvent env req w = Returns (fetched env req w) w.
Proof.
  unfold getEvent, fetched, try_catch, bind, Event_findById_populate, db_call, gets, respond, ret.
  destruct (dbFails env CallEventFindById); [done|]. cbn [read_db].
  destruct (events (db w) !! Req.eventId req) as [f|]; [|done].
  simpl (_ <$> Some _). cbv beta iota. by rewrite addSignedUrlsToEvent_run.
Qed.

Lemma signed_imageUrl env e :
  Event.imageUrl e = None →
  Event.imageUrl (signed env e)
  = if JS.truthy (Event.image e) then Some (signed_url env (Event.image e) None) else None.
Proof. intros He. unfold signed. by destruct (JS.truthy _). Qed.

Lemma signed_organizer env e : Event.organizer (signed env e) = Event.organizer e.
Proof. unfold signed. by destruct (JS.truthy _). Qed.

(** X1. Fetching one event never throws and changes nothing. It answers 500
    exactly when the database call fails, 404 exactly when no event has the
    id, and 200 otherwise: with the stored fields of that event, its
    organizer as [populate] resolves it, and, on the S3 backend and for an
    event that has an image, the signed URL of the image (or null when
    signing fails) as [imageUrl]. *)
Theorem getEvent_by_id (env : Env) (req : Req.t) (w : World) :
  ∃ r, getEvent env req w = Returns r w
       ∧ (status r = 200 ∨ status r = 404 ∨ status r = 500)
       ∧ (status r = 500 ↔ dbFails env CallEventFindById = true)
       ∧ (status r = 404 ↔ dbFails env CallEventFindById = false
                           ∧ events (db w) !! Req.eventId req = None)
       ∧ (status r = 200 →
          ∃ e, json r = BEvent (Some e)
               ∧ Event._id e = Req.eventId req
               ∧ events (db w) !! Req.eventId req = Some (Event.fields e)
               ∧ Event.organizer e
                 = Event.organizer (populate (db w) (Req.eventId req) (Event.fields e))
               ∧ Event.imageUrl e
                 = if is_s3 env && JS.truthy (Event.image e)
                   then Some (signed_url env (Event.image e) None) else None).
Proof.
  exists (fetched env req w). split; [apply getEvent_run|]. unfold fetched.
  destruct (dbFails env CallEventFindById);
    [|destruct (events (db w) !! Req.eventId req) as [f|] eqn:Hf]; cbn [status json].
  - split_and!; [lia|by split|split; [lia|by intros [? ?]]|lia].
  - split_and!; [lia|by split|split; [lia|by intros [? ?]]|intros _].
    eexists. split; [reflexivity|].
    destruct (is_s3 env); cbn [andb]; [|done].
    rewrite signed_id, signed_fields, signed_imageUrl by done.
    unfold Event.image. by rewrite signed_fields, signed_organizer.
  - split_and!; [lia|by split|by split|lia].
Qed.

Lemma deleteEvent_marks env req w old u :
  events (db w) !! Req.eventId req = Some old →
  castEventUpdate env false {[ "status" := VStr "deleted" ]} = Some u →
  dbFails env CallEventFindByIdAndUpdate = false →
  events (db (final_world (deleteEvent env req w)))
  = <[Req.eventId req := u ∪ old]> (events (db w)).
Proof.
  intros Hold Hcast Hupd.
  apply (post_final _ (λ w', events (db w') = <[Req.eventId req := u ∪ old]> (events (db w)))).
  unfold deleteEvent. wp_del; wsimpl; try done; congruence.
Qed.

Lemma get_union_l (u old : Doc) k v : JS.get u k = VStr v → JS.get (u ∪ old) k = VStr v.
Proof.
  unfold JS.get. destruct (u !! k) as [x|] eqn:Hu; [|done].
  by rewrite (lookup_union_Some_l _ _ _ _ Hu).
Qed.

(** X2. A soft-deleted event is still served by id. Once [deleteEvent] has
    marked an event (whether or not the cascade to its participations went
    through), [getEvent] answers 200 with that event and the status deleted:
    unlike the listings, it does not look at the status. *)
Theorem deleted_event_still_served (env env2 : Env) (req req2 : Req.t) (w : World)
    (old u : Doc) :
  let w' := final_world (deleteEvent env req w) in
  events (db w) !! Req.eventId req = Some old →
  castEventUpdate env false {[ "status" := VStr "deleted" ]} = Some u →
  JS.get u "status" = VStr "deleted" →
  dbFails env CallEventFindByIdAndUpdate = false →
  dbFails env2 CallEventFindById = false →
  Req.eventId req2 = Req.eventId req →
  ∃ e, getEvent env2 req2 w' = Returns {| status := 200; json := BEvent (Some e) |} w'
       ∧ Event._id e = Req.eventId req
       ∧ Event.status e = VStr "deleted".
Proof.
  intros w' Hold Hcast Hst Hupd Hfind Hid.
  pose proof (deleteEvent_marks env req w old u Hold Hcast Hupd) as Hev. fold w' in Hev.
  rewrite getEvent_run. unfold fetched. rewrite Hfind, Hid, Hev, lookup_insert_eq.
  eexists. split; [reflexivity|].
  destruct (is_s3 env2).
  - rewrite signed_id. unfold Event.status. rewrite signed_fields.
    split; [done|]. by apply get_union_l.
  - split; [done|]. by apply get_union_l.
Qed.

(** X2 in the scenario: after DELETE on E, GET on E answers 200 with status deleted. *)
Lemma deleted_event_still_served_witness :
  ∃ e, getEvent Scenario.env Scenario.title_only
         (final_world (deleteEvent Scenario.env Scenario.title_only Scenario.w0))
       = Returns {| status := 200; json := BEvent (Some e) |}
           (final_world (deleteEvent Scenario.env Scenario.title_only Scenario.w0))
       ∧ Event._id e = "e1"
       ∧ Event.status e = VStr "deleted".
Proof.
  exact (deleted_event_still_served Scenario.env Scenario.env Scenario.title_only
           Scenario.title_only Scenario.w0 Scenario.E {[ "status" := VStr "deleted" ]}
           eq_refl eq_refl eq_refl eq_refl eq_refl eq_refl).
Defined.



(** X4. [createEvent] is not transactional. When the document has been saved
    and the activity log or the re-read of the event then fails, the
    response is 400 'Failed to create event' although the event is
    stored. *)
Theorem created_event_outlives_failure (env : Env) (req : Req.t) (w : World)
    (es : Settings.eventSettings_t) (stored : Doc) :
  let o := createEvent env req w in
  Req.file req = None →
  dbFails env CallSettingsFindOne = false →
  settings (db w) ≫= Settings.eventSettings = Some es →
  capacity_exceeded (JS.get (Req.body req) "maxAttendees")
                    (Settings.maxAttendeesPerEvent es) = false →
  dbFails env CallEventSave = false →
  castEvent env (new_event_fields req (Settings.maxAttendeesPerEvent es) VNull) = Some stored →
  logActivityThrows env = true ∨ dbFails env CallEventFindById = true →
  returned o
  = Some {| status := 400;
            json := BFailure "Failed to create event"
                      (if logActivityThrows env then LogError else DbError) |}
  ∧ events (db (final_world o)) = <[newEventId env := stored]> (events (db w)).
Proof.
  intros o Hfile Hset Hes Hcap Hsave Hcast Hfail. subst o.
  cut (post (createEvent env req w)
         (λ r w', r = {| status := 400;
                         json := BFailure "Failed to create event"
                                   (if logActivityThrows env then LogError else DbError) |}
                  ∧ events (db w') = <[newEventId env := stored]> (events (db w)))
         (λ _ _, False)).
  { destruct (createEvent env req w); [|done]. by intros [-> ?]. }
  unfold createEvent. rewrite Hfile.
  wp_create; wsimpl.
  all: rewrite ?lookup_insert_eq; try simpl (_ <$> Some _); wp_create; wsimpl.
  all: try congruence.
  all: destruct Hfail; try congruence.
  all: simplify_eq; done.
Qed.

(** X4 in the scenario, with a database whose [findById] fails: the creation is
    answered 400 and the event is stored under the new id. *)
Lemma created_event_outlives_failure_witness :
  let env := with_dbFails (λ c, match c with CallEventFindById => true | _ => false end)
               Scenario.env in
  let req := Scenario.request {[ "title" := VStr "Workshop" ]} None in
  status <$> returned (createEvent env req Scenario.w0) = Some 400
  ∧ is_Some (events (db (final_world (createEvent env req Scenario.w0))) !! "e2").
Proof.
  intros env req.
  destruct (created_event_outlives_failure env req Scenario.w0
              {| Settings.maxAttendeesPerEvent := VNum 100 |}
              (new_event_fields req (VNum 100) VNull)) as [Hr Hev].
  - reflexivity.
  - reflexivity.
  - reflexivity.
  - reflexivity.
  - reflexivity.
  - reflexivity.
  - by right.
  - rewrite Hr, Hev. split; [reflexivity|]. rewrite lookup_insert_eq. by eexists.
Defined.


(** The key [uploadToS3] stores under. *)
Lemma upload_s3_run env f w :
  is_s3 env = true →
  let key := "uploads/" +:+ randomImageName env None in
  upload env f w =
    if put_rejects (s3Client env) (bucket w) key then Throws S3Error w
    else Returns (VStr key)
           (emit (MediaPut key) (with_bucket (<[key := (buffer f, mimetype f)]> (bucket w)) w)).
Proof.
  intros Hs3 key. unfold upload, uploadToS3, send_PutObject, bind, ret. rewrite Hs3.
  fold key. by destruct (put_rejects _ _ _).
Qed.

(** X6. The upload comes before the validation. On the S3 backend, a creation
    with a file that is then refused, because the settings are not
    configured or the capacity is over the ceiling, is answered 500 and
    stores no event, but the uploaded object stays in the bucket. *)
Theorem rejected_creation_keeps_upload (env : Env) (req : Req.t) (w : World) (f : File) :
  let o := createEvent env req w in
  let key := "uploads/" +:+ randomImageName env None in
  is_s3 env = true →
  Req.file req = Some f →
  put_rejects (s3Client env) (bucket w) key = false →
  dbFails env CallSettingsFindOne = false →
  (settings (db w) ≫= Settings.eventSettings = None
   ∨ ∃ es, settings (db w) ≫= Settings.eventSettings = Some es
           ∧ capacity_exceeded (JS.get (Req.body req) "maxAttendees")
                               (Settings.maxAttendeesPerEvent es) = true) →
  status <$> returned o = Some 500
  ∧ db (final_world o) = db w
  ∧ bucket (final_world o) = <[key := (buffer f, mimetype f)]> (bucket w).
Proof.
  intros o key Hs3 Hfile Hput Hset Hrej. subst o.
  pose proof (upload_s3_run env f w Hs3) as Hup. cbv zeta in Hup. fold key in Hup.
  rewrite Hput in Hup.
  cut (post (createEvent env req w)
         (λ r w', status r = 500 ∧ db w' = db w
                  ∧ bucket w' = <[key := (buffer f, mimetype f)]> (bucket w))
         (λ _ _, False)).
  { destruct (createEvent env req w); [|done]. cbn. by intros (-> & ? & ?). }
  unfold createEvent. rewrite Hfile.
  destruct Hrej as [Hnone|(es & Hes & Hcap)]; wp_create; wsimpl; try done; congruence.
Qed.

(** X6 in the scenario: a creation with a file and a capacity of 150 against the
    ceiling 100. *)
Lemma rejected_creation_keeps_upload_witness :
  let req := Scenario.request {[ "title" := VStr "Gala"; "maxAttendees" := VNum 150 ]}
               (Some Scenario.png) in
  let o := createEvent Scenario.env req Scenario.w0 in
  status <$> returned o = Some 500
  ∧ db (final_world o) = db Scenario.w0
  ∧ bucket (final_world o) !! "uploads/ab12" = Some ("new bytes", "image/png").
Proof.
  intros req o.
  destruct (rejected_creation_keeps_upload Scenario.env req Scenario.w0 Scenario.png)
    as (Hst & Hdb & Hb).
  - reflexivity.
  - reflexivity.
  - reflexivity.
  - reflexivity.
  - right. eexists. split; reflexivity.
  - split_and!; [exact Hst|exact Hdb|]. subst o. rewrite Hb. reflexivity.
Defined.

(** X7. Updating an event that does not exist answers 404 'Event not found'.
    The transaction is started and aborted and nothing else happens: the
    database, the bucket and the activity log are what they were, nothing is
    uploaded even when the request carries a file, and the temporary file of
    the request is not removed. *)
Theorem update_of_missing_event (env : Env) (req : Req.t) (w : World) :
  events (db w) !! Req.eventId req = None →
  dbFails env CallEventFindById = false →
  updateEvent env req w
  = Returns {| status := 404; json := BError "Event not found" |}
      {| db := db w; txn := None; bucket := bucket w; tmpfiles := tmpfiles w;
         activity := activity w; trace := trace w ++ [TxnStart; TxnAbort] |}.
Proof.
  intros Hnone Hfind.
  unfold updateEvent, bind, finally, try_catch, startTransaction, abortTransaction, modify,
    Event_findById_populate, db_call, gets, respond, ret.
  rewrite Hfind. wsimpl_goal. rewrite Hnone. simpl (_ <$> None). cbv beta iota. wsimpl_goal.
  unfold endSession, emit, with_txn. cbn [db txn bucket tmpfiles activity trace].
  by rewrite <- app_assoc.
Qed.

(** X7 in the scenario: an update of an unknown event, with a file. *)
Lemma update_of_missing_event_witness :
  let req := {| Req.eventId := "e7"; Req.body := {[ "title" := VStr "Ghost" ]};
                Req.query := ∅; Req.file := Some Scenario.png; Req.userId := "u1" |} in
  updateEvent Scenario.env req Scenario.w0
  = Returns {| status := 404; json := BError "Event not found" |}
      {| db := db Scenario.w0; txn := None; bucket := bucket Scenario.w0;
         tmpfiles := tmpfiles Scenario.w0; activity := activity Scenario.w0;
         trace := trace Scenario.w0 ++ [TxnStart; TxnAbort] |}.
Proof.
  intros req. exact (update_of_missing_event Scenario.env req Scenario.w0 eq_refl eq_refl).
Defined.


(** ** Temporary files *)





Lemma deleteOldImage_off_s3 env image w :
  is_s3 env = false → deleteOldImage env image w = Returns () w.
Proof. intros Hs3. unfold deleteOldImage. rewrite Hs3. by destruct (JS.falsy image). Qed.






(** ** The Cloudinary backend *)

Lemma replace_media_off_s3_spec env req existingEvent w :
  is_s3 env = false →
  let Q := λ w1, ∃ fs m, w1 = {| db := db w; txn := txn w; bucket := bucket w;
                                 tmpfiles := fs; activity := activity w;
                                 trace := trace w ++ m |}
                         ∧ uploads_only m in
  post (replace_media env req existingEvent w) (λ _, Q) (λ _, Q).
Proof.
  intros Hs3 Q. subst Q. unfold replace_media, upload. rewrite Hs3.
  assert (w = {| db := db w; txn := txn w; bucket := bucket w; tmpfiles := tmpfiles w;
                 activity := activity w; trace := trace w ++ [] |}) as Hw
    by (rewrite app_nil_r; by destruct w).
  destruct (Req.file req) as [f|]; [|exists (tmpfiles w), []; split; [done|constructor]].
  wp; wsimpl; try (exists (tmpfiles w), []; split; [done|constructor]).
  all: repeat match goal with
         | |- post (deleteOldImage _ _ _) _ _ => rewrite deleteOldImage_off_s3 by done; cbn [post]
         end; wp; wsimpl.
  all: try (eexists _, [_]; split; [reflexivity|repeat constructor; by eexists]).
  all: eexists _, []; split; [by rewrite app_nil_r|constructor].
Qed.

Ltac wp_off_s3 :=
  lazymatch goal with
  | |- post (replace_media _ _ _ _) _ _ =>
      eapply post_mono;
      [ eapply replace_media_off_s3_spec; eassumption
      | intros ? ? (? & ? & -> & ?)
      | intros ? ? (? & ? & -> & ?) ];
      cbv beta
  | |- post (deleteOldImage _ _ _) _ _ =>
      rewrite deleteOldImage_off_s3 by assumption; cbn [post]
  end.

Lemma uploads_only_no_delete m key ok : uploads_only m → MediaDelete key ok ∉ m.
Proof.
  intros Hm Hin. unfold uploads_only in Hm. rewrite Forall_forall in Hm.
  by destruct (Hm _ Hin).
Qed.

(** X10. Off the S3 backend no image is ever deleted. There, the bucket is
    untouched by [updateEvent] and [deleteEvent]; between the start and the
    end of its transaction [updateEvent] has no deletion among its outward
    effects, and [deleteEvent] has no outward effect at all: replaced images
    and the images of deleted events stay where they are. *)
Theorem images_are_kept_off_s3 (env : Env) (req : Req.t) (w : World) :
  is_s3 env = false →
  (bucket (final_world (updateEvent env req w)) = bucket w
   ∧ ∃ m e, trace (final_world (updateEvent env req w)) = trace w ++ TxnStart :: m ++ [e]
            ∧ (∀ key ok, MediaDelete key ok ∉ m)
            ∧ (e = TxnCommit ∨ e = TxnAbort))
  ∧ bucket (final_world (deleteEvent env req w)) = bucket w
  ∧ trace (final_world (deleteEvent env req w)) = trace w.
Proof.
  intros Hs3. split; [|split].
  - apply (post_final _ (λ w', bucket w' = bucket w ∧ ∃ m e, trace w' = trace w ++ TxnStart :: m ++ [e]
            ∧ (∀ key ok, MediaDelete key ok ∉ m)
            ∧ (e = TxnCommit ∨ e = TxnAbort))).
    unfold updateEvent.
    repeat (first [wp_known | wp_off_s3 | wp_head | wp_block]); wsimpl.
    all: split; [done|].
    all: first
      [ exists [], TxnAbort; split_and!;
        [apply trace_shape_nil|intros ?? ?%elem_of_nil; done|by right]
      | eexists _, TxnAbort; split_and!;
        [apply trace_shape_media|intros; by apply uploads_only_no_delete|by right]
      | eexists _, TxnCommit; split_and!;
        [apply trace_shape_media|intros; by apply uploads_only_no_delete|by left] ].
  - apply (post_final _ (λ w', bucket w' = bucket w)).
    unfold deleteEvent. repeat (first [wp_known | wp_off_s3 | wp_head]); wsimpl; done.
  - apply (post_final _ (λ w', trace w' = trace w)).
    unfold deleteEvent. repeat (first [wp_known | wp_off_s3 | wp_head]); wsimpl; done.
Qed.

(** X10 in the scenario on the Cloudinary backend. *)
Lemma images_are_kept_off_s3_witness :
  let req := Scenario.request {[ "title" := VStr "Meetup 2" ]} (Some Scenario.on_disk) in
  (bucket (final_world (updateEvent Scenario.env_cloudinary req Scenario.w_disk))
   = bucket Scenario.w_disk
   ∧ ∃ m e, trace (final_world (updateEvent Scenario.env_cloudinary req Scenario.w_disk))
            = trace Scenario.w_disk ++ TxnStart :: m ++ [e]
            ∧ (∀ key ok, MediaDelete key ok ∉ m)
            ∧ (e = TxnCommit ∨ e = TxnAbort))
  ∧ bucket (final_world (deleteEvent Scenario.env_cloudinary req Scenario.w_disk))
    = bucket Scenario.w_disk
  ∧ trace (final_world (deleteEvent Scenario.env_cloudinary req Scenario.w_disk))
    = trace Scenario.w_disk.
Proof.
  intros req.
  exact (images_are_kept_off_s3 Scenario.env_cloudinary req Scenario.w_disk eq_refl).
Defined.

(** * Deletion, continued *)

(** X11. Deleting an event that does not exist changes nothing, whatever
    else the request says. The answer is 404 when the database call goes
    through and the schema accepts the update, and 500 otherwise. *)
Theorem delete_of_missing_event (env : Env) (req : Req.t) (w : World) :
  events (db w) !! Req.eventId req = None →
  ∃ r, deleteEvent env req w = Returns r w
       ∧ (status r = 404 ∨ status r = 500)
       ∧ (status r = 404 ↔
          dbFails env CallEventFindByIdAndUpdate = false
          ∧ is_Some (castEventUpdate env false {[ "status" := VStr "deleted" ]})).
Proof.
  intros Hnone.
  unfold deleteEvent, try_catch, bind, Event_findByIdAndUpdate, db_call, respond, ret.
  destruct (dbFails env CallEventFindByIdAndUpdate).
  { eexists. split; [reflexivity|]. cbn. split; [lia|]. split; [lia|by intros [? ?]]. }
  destruct (castEventUpdate env false _) as [u|].
  - cbn [read_db]. rewrite Hnone. eexists. split; [reflexivity|]. cbn.
    split; [lia|]. split; [by eauto|done].
  - eexists. split; [reflexivity|]. cbn. split; [lia|]. split; [lia|].
    intros [_ [? ?]]. done.
Qed.

(** X11 in the scenario: DELETE on an unknown event. *)
Lemma delete_of_missing_event_witness :
  let req := {| Req.eventId := "e7"; Req.body := ∅; Req.query := ∅;
                Req.file := None; Req.userId := "u1" |} in
  ∃ r, deleteEvent Scenario.env req Scenario.w0 = Returns r Scenario.w0
       ∧ status r = 404.
Proof.
  intros req.
  destruct (delete_of_missing_event Scenario.env req Scenario.w0 eq_refl)
    as (r & Hr & _ & Hst).
  exists r. split; [exact Hr|]. apply Hst. split; [reflexivity|]. by eexists.
Defined.

(** X12. [deleteEvent] is not atomic. When the event has been marked deleted
    and the update of its participations then fails, the response is 500
    'Failed to delete event', the event stays marked, and the participations,
    the bucket and the activity log are what they were. *)
Theorem failed_cascade_keeps_event_deleted (env : Env) (req : Req.t) (w : World)
    (old u : Doc) :
  events (db w) !! Req.eventId req = Some old →
  castEventUpdate env false {[ "status" := VStr "deleted" ]} = Some u →
  dbFails env CallEventFindByIdAndUpdate = false →
  dbFails env CallParticipationUpdateMany = true →
  deleteEvent env req w
  = Returns {| status := 500; json := BFailure "Failed to delete event" DbError |}
      (with_db (with_events (<[Req.eventId req := u ∪ old]> (events (db w))) (db w)) w).
Proof.
  intros Hold Hcast Hupd Hmany.
  unfold deleteEvent, try_catch, bind, Event_findByIdAndUpdate, Participation_updateMany,
    db_call, respond, ret.
  rewrite Hupd, Hcast. cbn [read_db write_db]. rewrite Hold, Hmany. done.
Qed.

(** X12 in the scenario, with a database whose [updateMany] fails. *)
Lemma failed_cascade_keeps_event_deleted_witness :
  let env := with_dbFails
               (λ c, match c with CallParticipationUpdateMany => true | _ => false end)
               Scenario.env in
  let w' := final_world (deleteEvent env Scenario.title_only Scenario.w0) in
  status <$> returned (deleteEvent env Scenario.title_only Scenario.w0) = Some 500
  ∧ (events (db w') !! "e1") ≫= (.!! "status") = Some (VStr "deleted")
  ∧ participations (db w') = participations (db Scenario.w0).
Proof.
  intros env w'. subst w'.
  rewrite (failed_cascade_keeps_event_deleted env Scenario.title_only Scenario.w0
             Scenario.E {[ "status" := VStr "deleted" ]} eq_refl eq_refl eq_refl eq_refl).
  split_and!; reflexivity.
Defined.

Lemma update_status_idemp eventId status ps :
  update_status_of_event eventId status (update_status_of_event eventId status ps)
  = update_status_of_event eventId status ps.
Proof.
  unfold update_status_of_event. rewrite <- list_fmap_compose.
  apply list_fmap_ext. intros _ p _. cbn.
  destruct (decide (Participation.event p = eventId)) as [Hp|Hp].
  - cbn. rewrite decide_True by done. done.
  - by rewrite decide_False.
Qed.

Lemma union_twice (u old : Doc) : u ∪ (u ∪ old) = u ∪ old.
Proof. by rewrite (assoc_L (∪)), (idemp_L (∪)). Qed.

Ltac wp_delete_again :=
  lazymatch goal with
  | |- post (deleteOldImage ?env ?k ?w) _ _ =>
      lazymatch goal with
      | H : JS.truthy k = true |- _ =>
          destruct (deleteOldImage_spec env k w H) as (? & -> & (? & ? & ? & -> & ?));
          cbn [post]
      end
  end.

Ltac wp_del2 := repeat (first [wp_known | wp_head | wp_delete_again]).

(** X13. Deleting twice. A second DELETE of the same event, right after the
    first, gets the response of the first (200 again, not 404, for an event
    that was deleted) and leaves the database as the first left it. The
    model has no clock: a timestamp the schema maintains is not part of this
    comparison. *)
Theorem deleteEvent_idempotent (env : Env) (req : Req.t) (w : World) :
  let w1 := final_world (deleteEvent env req w) in
  let w2 := final_world (deleteEvent env req w1) in
  returned (deleteEvent env req w1) = returned (deleteEvent env req w)
  ∧ db w2 = db w1.
Proof.
  intros w1 w2. subst w1 w2.
  cut (post (deleteEvent env req w)
         (λ r w1, post (deleteEvent env req w1) (λ r2 w2, r2 = r ∧ db w2 = db w1) (λ _ _, False))
         (λ _ _, False)).
  { destruct (deleteEvent env req w) as [r w1|]; [|done]. cbn [post final_world returned].
    destruct (deleteEvent env req w1) as [r2 w2|]; [|done]. cbn. by intros [-> ?]. }
  unfold deleteEvent at 1. wp_del; wsimpl.
  all: unfold deleteEvent; wp_del2; wsimpl.
  all: rewrite ?lookup_insert_eq in *; simplify_eq.
  all: rewrite ?union_twice in *; try congruence.
  all: try done.
  all: rewrite ?insert_insert_eq, ?update_status_idemp; try done.
Qed.

Lemma deleteOldImage_s3_accepted env image w :
  is_s3 env = true →
  JS.truthy image = true →
  delete_rejects (s3Client env) (bucket w) image = false →
  deleteOldImage env image w
  = Returns () (emit (MediaDelete (JS.to_string image) true)
                  (with_bucket (delete (JS.to_string image) (bucket w)) w)).
Proof.
  intros Hs3 Himg Hdel. unfold deleteOldImage, JS.falsy, bind, ret.
  rewrite Himg, Hs3. cbn [negb]. rewrite deleteFromS3_run. unfold JS.falsy.
  by rewrite Himg, Hdel.
Qed.

(** X14. Soft deletion is not soft for the image. On the S3 backend, when
    [deleteEvent] goes through for an event that has an image and the
    service accepts the deletion, the object is gone from the bucket while
    the event, which stays in the store, still names its key (the schema
    being taken to leave [image] out of a status update). *)
Theorem deleted_event_names_deleted_image (env : Env) (req : Req.t) (w : World)
    (old u : Doc) (key : string) :
  let w' := final_world (deleteEvent env req w) in
  is_s3 env = true →
  events (db w) !! Req.eventId req = Some old →
  old !! "image" = Some (VStr key) →
  key ≠ "" →
  castEventUpdate env false {[ "status" := VStr "deleted" ]} = Some u →
  u !! "image" = None →
  dbFails env CallEventFindByIdAndUpdate = false →
  dbFails env CallParticipationUpdateMany = false →
  delete_rejects (s3Client env) (bucket w) (VStr key) = false →
  bucket w' = delete key (bucket w)
  ∧ ∃ new, events (db w') !! Req.eventId req = Some new ∧ new !! "image" = Some (VStr key).
Proof.
  intros w' Hs3 Hold Himg Hkey Hcast Hu Hupd Hmany Hdel. subst w'.
  assert ((u ∪ old) !! "image" = Some (VStr key)) as Hnew
    by (by rewrite lookup_union_r).
  assert (JS.get (u ∪ old) "image" = VStr key) as Hget by (unfold JS.get; by rewrite Hnew).
  assert (JS.truthy (VStr key) = true) as Htruthy by (by apply truthy_VStr).
  apply (post_final _ (λ w', bucket w' = delete key (bucket w)
                             ∧ ∃ new, events (db w') !! Req.eventId req = Some new
                                      ∧ new !! "image" = Some (VStr key))).
  unfold deleteEvent.
  repeat (first
    [ wp_known
    | progress rewrite Hget
    | lazymatch goal with
      | |- post (deleteOldImage _ _ _) _ _ =>
          rewrite deleteOldImage_s3_accepted by (wsimpl_goal; assumption); cbn [post]
      end
    | wp_head ]); wsimpl; try congruence.
  all: cbn [JS.to_string]; (split; [done|]); exists (u ∪ old); by rewrite lookup_insert_eq.
Qed.

(** X14 in the scenario: after DELETE on E the bucket no longer holds
    uploads/old, which E still names. *)
Lemma deleted_event_names_deleted_image_witness :
  let w' := final_world (deleteEvent Scenario.env Scenario.title_only Scenario.w0) in
  bucket w' = delete "uploads/old" (bucket Scenario.w0)
  ∧ ∃ new, events (db w') !! "e1" = Some new ∧ new !! "image" = Some (VStr "uploads/old").
Proof.
  intros w'.
  exact (deleted_event_names_deleted_image Scenario.env Scenario.title_only Scenario.w0
           Scenario.E {[ "status" := VStr "deleted" ]} "uploads/old"
           eq_refl eq_refl eq_refl ltac:(done) eq_refl eq_refl eq_refl eq_refl eq_refl).
Defined.

(** * The activity log *)

(** X15. The activity log is outside the transaction. A run of [updateEvent]
    appends at most one entry, always one when it answers 200, and the entry
    names the requester, the action updated and the event. For a request
    without a file that gets as far as the update (the event and its
    organizer are found, the settings are read, the capacity is within the
    ceiling, the schema accepts the update) and whose entry is written, the
    entry stays, whether the transaction is then committed or rolled
    back. *)
Theorem activity_log_is_not_rolled_back (env : Env) (req : Req.t) (w : World) :
  let o := updateEvent env req w in
  (∃ l, activity (final_world o) = activity w ++ l
        ∧ (l = [] ∨ ∃ title, l = [update_entry req title])
        ∧ (status <$> returned o = Some 200 → l ≠ []))
  ∧ (∀ old u es,
       Req.file req = None →
       events (db w) !! Req.eventId req = Some old →
       is_Some (Event.organizer (populate (db w) (Req.eventId req) old)) →
       settings (db w) ≫= Settings.eventSettings = Some es →
       capacity_exceeded (JS.get (Req.body req) "maxAttendees")
                         (Settings.maxAttendeesPerEvent es) = false →
       castEventUpdate env true
         (updateData req VNull (populate (db w) (Req.eventId req) old)) = Some u →
       dbFails env CallEventFindById = false →
       dbFails env CallSettingsFindOne = false →
       dbFails env CallEventFindByIdAndUpdate = false →
       logActivityThrows env = false →
       activity (final_world o) = activity w ++ [update_entry req (JS.get (u ∪ old) "title")]).
Proof.
  intros o. subst o. split.
  - cut (post (updateEvent env req w)
           (λ r w', ∃ l, activity w' = activity w ++ l
                         ∧ (l = [] ∨ ∃ title, l = [update_entry req title])
                         ∧ (status r = 200 → l ≠ []))
           (λ _ _, False)).
    { destruct (updateEvent env req w) as [r w'|]; [|done]. cbn.
      intros (l & ? & ? & Hl). exists l. split_and!; [done|done|].
      intros [= Hst]. by apply Hl. }
    unfold updateEvent. wp_all; wsimpl.
    all: first
      [ exists []; split_and!; [by rewrite app_nil_r|by left|done]
      | eexists [_]; split_and!; [reflexivity|right; by eexists|done] ].
  - intros old u es Hfile Hold [org Horg] Hes Hcap Hcast Hfind Hset Hupd Hlog.
    apply (post_final _ (λ w', activity w'
             = activity w ++ [update_entry req (JS.get (u ∪ old) "title")])).
    unfold updateEvent.
    assert (∀ w1, replace_media env req (populate (db w) (Req.eventId req) old) w1
                  = Returns VNull w1) as Hmedia
      by (intros w1; by apply replace_media_no_file).
    repeat (first
      [ wp_known
      | lazymatch goal with
        | |- post (replace_media _ _ _ _) _ _ => rewrite Hmedia; cbn [post]
        end
      | wp_head | wp_block ]); wsimpl; rewrite ?get_updateData_ne in * by done;
      try congruence; try done.
Qed.

(** X15 in the scenario, with a schema that refuses every notification: the
    update is rolled back and its entry is in the log. *)
Lemma activity_log_is_not_rolled_back_witness :
  let env := with_notificationInvalid (λ _, true) Scenario.env in
  let o := updateEvent env Scenario.title_only Scenario.w0 in
  activity (final_world o) = [update_entry Scenario.title_only (VStr "Meetup 2")]
  ∧ db (final_world o) = db Scenario.w0.
Proof.
  intros env o. split; [|reflexivity].
  exact (proj2 (activity_log_is_not_rolled_back env Scenario.title_only Scenario.w0)
           Scenario.E
           (updateData Scenario.title_only VNull (populate Scenario.store "e1" Scenario.E))
           {| Settings.maxAttendeesPerEvent := VNum 100 |}
           eq_refl eq_refl (ex_intro _ Scenario.alice eq_refl) eq_refl eq_refl eq_refl
           eq_refl eq_refl eq_refl eq_refl).
Defined.

(** * Listings, continued *)

Lemma signed_list_ids env es : Event._id <$> signed_list env es = Event._id <$> es.
Proof.
  unfold signed_list. destruct (is_s3 env); [|done].
  rewrite <- list_fmap_compose. apply list_fmap_ext. intros _ e _. apply signed_id.
Qed.

Lemma signed_list_fields env es : Event.fields <$> signed_list env es = Event.fields <$> es.
Proof.
  unfold signed_list. destruct (is_s3 env); [|done].
  rewrite <- list_fmap_compose. apply list_fmap_ext. intros _ e _. apply signed_fields.
Qed.

Lemma elem_of_signed_list_iff env es id doc :
  (∃ e, e ∈ signed_list env es ∧ Event._id e = id ∧ Event.fields e = doc)
  ↔ (∃ e, e ∈ es ∧ Event._id e = id ∧ Event.fields e = doc).
Proof.
  unfold signed_list. destruct (is_s3 env); [|done]. split.
  - intros (e & (e0 & -> & Hin)%list_elem_of_fmap & <- & <-).
    exists e0. by rewrite signed_id, signed_fields.
  - intros (e & Hin & <- & <-). exists (signed env e).
    rewrite signed_id, signed_fields. split; [|done]. by apply list_elem_of_fmap_2.
Qed.

Lemma elem_of_found_iff d cond id doc :
  (∃ e, e ∈ found d cond ∧ Event._id e = id ∧ Event.fields e = doc)
  ↔ events d !! id = Some doc ∧ cond id doc = true.
Proof.
  split.
  - intros (e & [Hst Hc]%elem_of_found & <- & <-). done.
  - intros [Hst Hc]. exists (populate d id doc). split; [|done].
    unfold found. apply list_elem_of_fmap. exists (id, doc). split; [done|].
    apply list_elem_of_filter. split; [by apply Is_true_true|].
    by apply elem_of_map_to_list.
Qed.

Lemma found_ids d cond :
  Event._id <$> found d cond
  = (filter (λ kv : string * Doc, cond kv.1 kv.2 : Prop) (map_to_list (events d))).*1.
Proof.
  unfold found. rewrite <- list_fmap_compose. by apply list_fmap_ext.
Qed.

Lemma NoDup_filter_fst {A B} (P : A * B → Prop) `{∀ x, Decision (P x)} (l : list (A * B)) :
  NoDup l.*1 → NoDup (filter P l).*1.
Proof.
  induction l as [|[a b] l IH]; [done|]. cbn [fmap list_fmap fst].
  intros [Hnotin Hnd]%NoDup_cons. rewrite filter_cons. destruct (decide (P (a, b))).
  - cbn [fmap list_fmap fst]. apply NoDup_cons. split; [|by apply IH].
    intros (x & Hx & [_ Hin]%list_elem_of_filter)%list_elem_of_fmap.
    apply Hnotin. apply list_elem_of_fmap. by exists x.
  - by apply IH.
Qed.

Lemma found_NoDup d cond : NoDup (Event._id <$> found d cond).
Proof. rewrite found_ids. apply NoDup_filter_fst, NoDup_fst_map_to_list. Qed.

Lemma getAllEvent_run env req w :
  let isPublic := JS.get (Req.query req) "public" in
  let organizerId := JS.get (Req.query req) "organizerId" in
  let participantId := JS.get (Req.query req) "participantId" in
  let events := signed_list env (found (db w) (λ _ doc, listing_filter isPublic organizerId doc)) in
  let joined :=
    signed_list env (found (db w) (λ id _, bool_decide (id ∈ joined_ids (db w) participantId))) in
  dbFails env CallEventFind = false →
  (JS.truthy participantId = true → dbFails env CallParticipationFind = false) →
  getAllEvent env req w
  = Returns {| status := 200;
               json := BEvents (if JS.truthy participantId
                                then if JS.truthy organizerId then events ++ joined else joined
                                else events) |} w.
Proof.
  intros isPublic organizerId participantId events joined Hfind Hpart.
  subst events joined. unfold getAllEvent, try_catch, bind, Event_find, Participation_find_user,
    db_call, gets, respond, ret, signed_list, joined_ids.
  fold isPublic organizerId participantId. rewrite Hfind.
  destruct (JS.truthy participantId).
  - rewrite Hpart by done. rewrite !addSignedUrlsToEvents_run.
    destruct (JS.truthy organizerId); [|done]. by rewrite addSignedUrlsToEvents_run.
  - by rewrite addSignedUrlsToEvents_run.
Qed.

Lemma elem_of_joined_ids d participantId id :
  id ∈ joined_ids d participantId
  ↔ ∃ p, p ∈ participations d
         ∧ VStr (Participation.user p) = participantId
         ∧ Participation.status p = "approved"
         ∧ Participation.event p = id.
Proof.
  unfold joined_ids. rewrite list_elem_of_fmap. split.
  - intros (p & -> & [[? ?] ?]%list_elem_of_filter). by exists p.
  - intros (p & ? & ? & ? & <-). exists p. split; [done|]. by apply list_elem_of_filter.
Qed.

(** X16. A listing without [participantId] is exact. When the query goes
    through, the response is 200 and lists each stored event that passes
    the filter of the request exactly once, and nothing else. So no listed
    event has status deleted; with [organizerId], every listed event is of
    that organizer; with [public], every listed event is public and neither
    ended, cancelled nor ongoing. *)
Theorem listing_is_exact (env : Env) (req : Req.t) (w : World) :
  let isPublic := JS.get (Req.query req) "public" in
  let organizerId := JS.get (Req.query req) "organizerId" in
  dbFails env CallEventFind = false →
  JS.truthy (JS.get (Req.query req) "participantId") = false →
  ∃ r, getAllEvent env req w = Returns r w
       ∧ status r = 200
       ∧ NoDup (Event._id <$> listed r)
       ∧ (∀ id doc,
            (∃ e, e ∈ listed r ∧ Event._id e = id ∧ Event.fields e = doc)
            ↔ events (db w) !! id = Some doc
              ∧ listing_filter isPublic organizerId doc = true)
       ∧ (∀ e, e ∈ listed r →
            Event.status e ≠ VStr "deleted"
            ∧ (JS.truthy organizerId = true →
               JS.get (Event.fields e) "organizer" = organizerId)
            ∧ (JS.truthy isPublic = true →
               JS.get (Event.fields e) "publicity" = VBool true
               ∧ Event.status e ≠ VStr "ended"
               ∧ Event.status e ≠ VStr "cancelled"
               ∧ Event.status e ≠ VStr "ongoing")).
Proof.
  intros isPublic organizerId Hfind Hpart.
  rewrite getAllEvent_run by (done || by rewrite Hpart).
  rewrite Hpart. fold isPublic organizerId.
  eexists. split; [reflexivity|]. cbn [status listed json].
  split_and!; [done|by rewrite signed_list_ids; apply found_NoDup| |].
  - intros id doc. by rewrite elem_of_signed_list_iff, elem_of_found_iff.
  - intros e He.
    assert (∃ e0, e0 ∈ signed_list env
                         (found (db w) (λ _ doc, listing_filter isPublic organizerId doc))
                  ∧ Event._id e0 = Event._id e ∧ Event.fields e0 = Event.fields e) as Hex
      by (by exists e).
    apply elem_of_signed_list_iff, elem_of_found_iff in Hex as [_ Hfilter].
    unfold Event.status. unfold listing_filter in Hfilter.
    apply andb_true_iff in Hfilter as [Hst Horg]. split_and!.
    + intros Hdel. rewrite Hdel in Hst. destruct (JS.truthy isPublic); [|done].
      by rewrite andb_false_r in Hst.
    + intros Ho. rewrite Ho in Horg. by apply bool_decide_eq_true in Horg.
    + intros Hpub. rewrite Hpub in Hst. apply andb_true_iff in Hst as [Hp Hs].
      apply bool_decide_eq_true in Hp.
      split_and!; [done|..]; intros Heq; by rewrite Heq in Hs.
Qed.

(** X17. The listing of a participant ignores the filter. With
    [participantId] and without [organizerId], the response lists exactly
    the stored events for which that user has an approved participation,
    each once, whatever [public] says and whatever the status of the
    event. *)
Theorem joined_listing_ignores_status (env : Env) (req : Req.t) (w : World) :
  let participantId := JS.get (Req.query req) "participantId" in
  dbFails env CallEventFind = false →
  dbFails env CallParticipationFind = false →
  JS.truthy participantId = true →
  JS.truthy (JS.get (Req.query req) "organizerId") = false →
  ∃ r, getAllEvent env req w = Returns r w
       ∧ status r = 200
       ∧ NoDup (Event._id <$> listed r)
       ∧ ∀ id doc,
           (∃ e, e ∈ listed r ∧ Event._id e = id ∧ Event.fields e = doc)
           ↔ events (db w) !! id = Some doc
             ∧ ∃ p, p ∈ participations (db w)
                    ∧ VStr (Participation.user p) = participantId
                    ∧ Participation.status p = "approved"
                    ∧ Participation.event p = id.
Proof.
  intros participantId Hfind Hpfind Hpart Horg.
  rewrite getAllEvent_run by done. fold participantId. rewrite Hpart, Horg.
  eexists. split; [reflexivity|]. cbn [status listed json].
  split_and!; [done|by rewrite signed_list_ids; apply found_NoDup|].
  intros id doc. rewrite elem_of_signed_list_iff, elem_of_found_iff.
  by rewrite bool_decide_eq_true, elem_of_joined_ids.
Qed.

(** X18. The merged listing repeats events. With both [organizerId] and
    [participantId], the response is the listing of the organizer followed
    by the events the participant joined, without removing duplicates: an
    event that belongs to both is listed twice. *)
Theorem merged_listing_repeats_events (env : Env) (req : Req.t) (w : World)
    (id : string) (doc : Doc) (p : Participation.t) :
  let isPublic := JS.get (Req.query req) "public" in
  let organizerId := JS.get (Req.query req) "organizerId" in
  let participantId := JS.get (Req.query req) "participantId" in
  dbFails env CallEventFind = false →
  dbFails env CallParticipationFind = false →
  JS.truthy participantId = true →
  JS.truthy organizerId = true →
  events (db w) !! id = Some doc →
  listing_filter isPublic organizerId doc = true →
  p ∈ participations (db w) →
  VStr (Participation.user p) = participantId →
  Participation.status p = "approved" →
  Participation.event p = id →
  ∃ r l1 l2 l3,
    getAllEvent env req w = Returns r w
    ∧ status r = 200
    ∧ Event._id <$> listed r = l1 ++ id :: l2 ++ id :: l3.
Proof.
  intros isPublic organizerId participantId Hfind Hpfind Hpart Horg Hdoc Hfilter Hp Hu Hs He.
  rewrite getAllEvent_run by done. fold isPublic organizerId participantId.
  rewrite Hpart, Horg. cbn [status listed json].
  assert (id ∈ Event._id <$> signed_list env
            (found (db w) (λ _ doc, listing_filter isPublic organizerId doc))) as H1.
  { rewrite signed_list_ids. apply list_elem_of_fmap.
    destruct (proj2 (elem_of_found_iff (db w)
                       (λ _ doc, listing_filter isPublic organizerId doc) id doc))
      as (e & Hin & Hid & Hf); [done|].
    by exists e. }
  assert (id ∈ Event._id <$> signed_list env
            (found (db w) (λ id _, bool_decide (id ∈ joined_ids (db w) participantId)))) as H2.
  { rewrite signed_list_ids. apply list_elem_of_fmap.
    destruct (proj2 (elem_of_found_iff (db w)
                       (λ id _, bool_decide (id ∈ joined_ids (db w) participantId)) id doc))
      as (e & Hin & Hid & Hf).
    { split; [done|]. apply bool_decide_eq_true, elem_of_joined_ids. by exists p. }
    by exists e. }
  apply list_elem_of_split in H1 as (l1 & l2 & H1).
  apply list_elem_of_split in H2 as (l3 & l4 & H2).
  eexists _, l1, (l2 ++ l3), l4. split_and!; [reflexivity|done|].
  cbn [listed json]. rewrite fmap_app, H1, H2. by rewrite <- !app_assoc.
Qed.

(** X16 in the scenario: the default listing shows E. *)
Lemma listing_is_exact_witness :
  ∃ r, getAllEvent Scenario.env Scenario.title_only Scenario.w0 = Returns r Scenario.w0
       ∧ status r = 200
       ∧ Event._id <$> listed r = ["e1"].
Proof.
  destruct (listing_is_exact Scenario.env Scenario.title_only Scenario.w0 eq_refl eq_refl)
    as (r & Hr & Hst & _).
  exists r. split_and!; [exact Hr|exact Hst|].
  assert ((λ r, Event._id <$> listed r)
            <$> returned (getAllEvent Scenario.env Scenario.title_only Scenario.w0)
          = Some ["e1"]) as Hids by (vm_compute; reflexivity).
  rewrite Hr in Hids. by injection Hids.
Defined.

(** X17 in the scenario, E being ended: the public listing of the participant u2
    shows it. *)
Lemma joined_listing_ignores_status_witness :
  let ended := with_db (with_events {[ "e1" := <[ "status" := VStr "ended" ]> Scenario.E ]}
                          Scenario.store) Scenario.w0 in
  let req := {| Req.eventId := ""; Req.body := ∅;
                Req.query := {[ "participantId" := VStr "u2"; "public" := VStr "true" ]};
                Req.file := None; Req.userId := "u2" |} in
  ∃ r, getAllEvent Scenario.env req ended = Returns r ended
       ∧ status r = 200
       ∧ Event.status <$> listed r = [VStr "ended"].
Proof.
  intros ended req.
  destruct (joined_listing_ignores_status Scenario.env req ended eq_refl eq_refl eq_refl eq_refl)
    as (r & Hr & Hst & _).
  exists r. split_and!; [exact Hr|exact Hst|].
  assert ((λ r, Event.status <$> listed r) <$> returned (getAllEvent Scenario.env req ended)
          = Some [VStr "ended"]) as Hids by (vm_compute; reflexivity).
  rewrite Hr in Hids. by injection Hids.
Defined.

(** X18 in the scenario: E, organized by u1 and joined by u2, is listed twice. *)
Lemma merged_listing_repeats_events_witness :
  let req := {| Req.eventId := ""; Req.body := ∅;
                Req.query := {[ "participantId" := VStr "u2"; "organizerId" := VStr "u1" ]};
                Req.file := None; Req.userId := "u2" |} in
  ∃ r, getAllEvent Scenario.env req Scenario.w0 = Returns r Scenario.w0
       ∧ Event._id <$> listed r = ["e1"; "e1"].
Proof.
  intros req.
  destruct (merged_listing_repeats_events Scenario.env req Scenario.w0 "e1" Scenario.E
              Scenario.p1 eq_refl eq_refl eq_refl eq_refl eq_refl eq_refl)
    as (r & l1 & l2 & l3 & Hr & _ & _); [by left|reflexivity|reflexivity|reflexivity|].
  exists r. split; [exact Hr|].
  assert ((λ r, Event._id <$> listed r) <$> returned (getAllEvent Scenario.env req Scenario.w0)
          = Some ["e1"; "e1"]) as Hids by (vm_compute; reflexivity).
  rewrite Hr in Hids. by injection Hids.
Defined.

(** * The storage adapter, continued *)

(** X19. The key [uploadToS3] hands over. A rejected upload throws and
    changes nothing. An accepted one stores the buffer and its content type
    under uploads/ followed by the random name, returns that key, and leaves
    every other object, the database and the transaction alone. The key is
    never falsy for the two other operations: [getSignedUrlForKey] answers
    the URL the presigner issues for it, and [deleteFromS3] forwards the
    deletion and answers true unless the service rejects it, after which the
    object is gone, and the bucket is what it was before the upload if it
    did not hold the key. *)
Theorem uploaded_key_round_trip (env : Env) (fileBuffer mimetype : string) (w : World) :
  let key := "uploads/" +:+ randomImageName env None in
  (put_rejects (s3Client env) (bucket w) key = true →
   uploadToS3 env fileBuffer mimetype w = Throws S3Error w)
  ∧ (put_rejects (s3Client env) (bucket w) key = false →
     ∃ w1,
       uploadToS3 env fileBuffer mimetype w = Returns key w1
       ∧ bucket w1 !! key = Some (fileBuffer, mimetype)
       ∧ (∀ other, other ≠ key → bucket w1 !! other = bucket w !! other)
       ∧ db w1 = db w ∧ txn w1 = txn w
       ∧ (∀ url, presign (s3Client env) (VStr key) 3600 = Some url →
            getSignedUrlForKey env (VStr key) None w1 = Returns (VStr url) w1)
       ∧ ∃ w2,
           deleteFromS3 env (VStr key) w1
           = Returns (negb (delete_rejects (s3Client env) (bucket w1) (VStr key))) w2
           ∧ (delete_rejects (s3Client env) (bucket w1) (VStr key) = false →
              bucket w2 !! key = None
              ∧ (bucket w !! key = None → bucket w2 = bucket w))).
Proof.
  intros key.
  assert (JS.falsy (VStr key) = false) as Hkey by done.
  unfold uploadToS3, send_PutObject, bind, ret. fold key. split.
  - by intros ->.
  - intros ->. eexists. split; [reflexivity|]. wsimpl_goal. split_and!; try done.
    + by rewrite lookup_insert_eq.
    + intros other Hne. by rewrite lookup_insert_ne.
    + intros url Hurl. rewrite getSignedUrlForKey_run. unfold signed_url.
      rewrite Hkey. cbn [default]. by rewrite Hurl.
    + rewrite deleteFromS3_run, Hkey. wsimpl_goal. cbn [JS.to_string].
      destruct (delete_rejects _ _ _); eexists; (split; [reflexivity|]); [done|].
      intros _. wsimpl_goal. split; [by rewrite lookup_delete_eq|].
      intros Hfresh. by rewrite delete_insert_eq, delete_id.
Qed.

(** * The user controller *)

Section URules.
Context {A B : Type}.
Implicit Types (Q : A → Site → Prop) (E : uexn → Site → Prop).

Lemma upost_ret (a : A) s Q E : Q a s → upost (uret a s) Q E.
Proof. done. Qed.

Lemma upost_throw (e : uexn) s Q E : E e s → upost (uthrow (A:=A) e s) Q E.
Proof. done. Qed.

Lemma upost_bind (m : UProg B) (f : B → UProg A) s Q E :
  upost (m s) (λ b s1, upost (f b s1) Q E) E → upost (ubind m f s) Q E.
Proof. unfold ubind. by destruct (m s). Qed.

Lemma upost_try_catch (body : UProg A) (handler : uexn → UProg A) s Q E :
  upost (body s) Q (λ e s1, upost (handler e s1) Q E) → upost (utry_catch body handler s) Q E.
Proof. unfold utry_catch. by destruct (body s). Qed.

Lemma upost_gets (f : Site → A) s Q E : Q (f s) s → upost (ugets f s) Q E.
Proof. done. Qed.

Lemma upost_user_call uenv (c : UserCall) (p : UProg A) s Q E :
  (userDbFails uenv c = true → E (Raised DbError) s) →
  (userDbFails uenv c = false → upost (p s) Q E) →
  upost (user_call uenv c p s) Q E.
Proof. unfold user_call. destruct (userDbFails uenv c); simpl; auto. Qed.

Lemma upost_lift (p : Prog A) s Q E :
  post (p (world s)) (λ a w, Q a (with_world w s)) (λ e w, E (Raised e) (with_world w s)) →
  upost (lift p s) Q E.
Proof. unfold lift. by destruct (p (world s)). Qed.

Lemma upost_mono (o : uoutcome A) Q E (Q' : A → Site → Prop) (E' : uexn → Site → Prop) :
  upost o Q E → (∀ a s, Q a s → Q' a s) → (∀ e s, E e s → E' e s) → upost o Q' E'.
Proof. destruct o; simpl; auto. Qed.

Lemma upost_final (o : uoutcome A) (P : Site → Prop) :
  upost o (λ _ s, P s) (λ _ s, P s) → P (ufinal o).
Proof. by destruct o. Qed.


End URules.

Lemma upost_modify (f : Site → Site) s (Q : unit → Site → Prop) E :
  Q () (f s) → upost (umodify f s) Q E.
Proof. done. Qed.

Ltac usimpl_goal :=
  cbn [upost ufinal ureturned world accounts with_world with_account without_account
       ustatus ujson users_in
       post final_world returned db txn bucket tmpfiles activity trace
       with_db with_txn with_bucket with_tmpfiles with_activity emit
       events users participations notifications settings
       with_events with_participations with_notifications with_users
       fst snd].

Ltac usimpl :=
  cbn [upost ufinal ureturned world accounts with_world with_account without_account
       ustatus ujson users_in
       post final_world returned db txn bucket tmpfiles activity trace
       with_db with_txn with_bucket with_tmpfiles with_activity emit
       events users participations notifications settings
       with_events with_participations with_notifications with_users
       fst snd] in *.

Ltac uwp_known :=
  first
    [ lazymatch goal with
      | |- upost (user_call ?uenv ?c _ _) _ _ =>
          lazymatch goal with
          | H : userDbFails uenv c = false |- _ => unfold user_call at 1; rewrite H
          | H : userDbFails uenv c = true |- _ => unfold user_call at 1; rewrite H
          end
      end
    | lazymatch goal with
      | |- upost ?p _ _ =>
          lazymatch goal with H : p = _ |- _ => rewrite H; cbn [upost] end
      end ].

Ltac uwp_head :=
  lazymatch goal with
  | |- upost (ubind _ _ _) _ _ => apply upost_bind
  | |- upost (uret _ _) _ _ => apply upost_ret
  | |- upost (urespond _ _ _) _ _ => apply upost_ret
  | |- upost (uthrow _ _) _ _ => apply upost_throw
  | |- upost (utry_catch _ _ _) _ _ => apply upost_try_catch
  | |- upost (umodify _ _) _ _ => apply upost_modify
  | |- upost (ugets _ _) _ _ => apply upost_gets
  | |- upost (user_call _ _ _ _) _ _ => apply upost_user_call; intros ?
  | |- upost (lift _ _) _ _ => apply upost_lift
  | |- upost ((if ?b then _ else _) _) _ _ => wp_case b
  | |- upost ((match ?x with _ => _ end) _) _ _ => wp_case x
  | |- upost (if ?b then _ else _) _ _ => wp_case b
  | |- upost (match ?x with _ => _ end) _ _ => wp_case x
  | |- upost (UReturns _ _) _ _ => cbn [upost]
  | |- upost (UThrows _ _) _ _ => cbn [upost]
  | |- upost _ _ _ =>
      progress unfold User_find, User_findById, User_findOne, User_save,
        User_findByIdAndDelete, bcrypt_compare_, bcrypt_hash_, already_taken,
        change_password
  end; cbv beta zeta; usimpl_goal.

Section USteps.
Variable uenv : UEnv.

Lemma usigned_id u : Account._id (usigned uenv u) = Account._id u.
Proof. unfold usigned. by destruct (JS.truthy _). Qed.

Lemma usigned_fields u : Account.fields (usigned uenv u) = Account.fields u.
Proof. unfold usigned. by destruct (JS.truthy _). Qed.

Lemma sign_user_run u w : sign_user uenv u w = Returns (usigned uenv u) w.
Proof.
  unfold sign_user, usigned, bind, ret.
  destruct (JS.truthy _); [|done].
  by rewrite getSignedUrlForKey_run.
Qed.

Lemma mapM_sign_user_run us w :
  mapM (sign_user uenv) us w = Returns (usigned uenv <$> us) w.
Proof.
  induction us as [|u us IH]; [done|].
  cbn [mapM]. unfold bind at 1. rewrite sign_user_run.
  unfold bind at 1. rewrite IH. done.
Qed.

Lemma addSignedUrlsToUsers_run us w :
  addSignedUrlsToUsers uenv us w =
    Returns (if is_s3 (base_env uenv) then usigned uenv <$> us else us) w.
Proof.
  unfold addSignedUrlsToUsers. destruct (is_s3 _); cbn [negb]; [|done].
  apply mapM_sign_user_run.
Qed.

Lemma addSignedUrlsToUser_run u w :
  addSignedUrlsToUser uenv u w =
    Returns (if is_s3 (base_env uenv) then usigned uenv u else u) w.
Proof.
  unfold addSignedUrlsToUser. destruct (is_s3 _); cbn [negb]; [|done].
  apply sign_user_run.
Qed.

Lemma with_world_same s : with_world (world s) s = s.
Proof. by destruct s. Qed.

End USteps.

Ltac uwp_sign :=
  lazymatch goal with
  | |- post (addSignedUrlsToUser _ _ _) _ _ =>
      rewrite addSignedUrlsToUser_run; cbn [post]
  | |- post (addSignedUrlsToUsers _ _ _) _ _ =>
      rewrite addSignedUrlsToUsers_run; cbn [post]
  end.

Lemma cleanup_temp_file_run file w :
  ∃ fs, cleanup_temp_file file w = Returns () (with_tmpfiles fs w).
Proof.
  assert (Returns () w = Returns () (with_tmpfiles (tmpfiles w) w)) as Hw
    by (by destruct w).
  unfold cleanup_temp_file, bind, gets, try_catch, unlinkSync, ret.
  destruct file as [f|]; [|eauto]. destruct (path f) as [p|]; [|eauto].
  destruct (negb _); [|eauto]. case_bool_decide; [|eauto].
  rewrite decide_True by done. eauto.
Qed.

Ltac uwp_cleanup :=
  lazymatch goal with
  | |- post (cleanup_temp_file ?file ?w) _ _ =>
      let fs := fresh "fs" in
      destruct (cleanup_temp_file_run file w) as [fs ->]; cbn [post]
  end.

Ltac uwp_when :=
  lazymatch goal with
  | |- post (when (_ && _) _ _) _ _ =>
      apply post_when;
      [ let H := fresh in intros H; apply andb_true_iff in H as [? ?]
      | intros ? ]
  end.

Ltac uwp :=
  repeat (first [uwp_known | wp_known | uwp_sign | uwp_when | uwp_cleanup | wp_delete_again
                | wp_upload
                | uwp_head | wp_head]).

Lemma fields_of_signed uenv (u : Account.t) :
  Account.fields (if is_s3 (base_env uenv) then usigned uenv u else u) = Account.fields u.
Proof. destruct (is_s3 _); [apply usigned_fields|done]. Qed.



(** ** Reading and deleting users *)

Lemma get_delete_ne (doc : Doc) k k' : k ≠ k' → JS.get (delete k doc) k' = JS.get doc k'.
Proof. intros Hne. unfold JS.get. by rewrite lookup_delete_ne. Qed.

Lemma usigned_avatarUrl uenv u :
  Account.avatarUrl u = None →
  Account.avatarUrl (usigned uenv u)
  = if JS.truthy (Account.avatar u)
    then Some (signed_url (base_env uenv) (Account.avatar u) None) else None.
Proof. intros Hu. unfold usigned. by destruct (JS.truthy _). Qed.

Lemma getUser_run uenv req s : getUser uenv req s = UReturns (fetched_user uenv req s) s.
Proof.
  unfold getUser, fetched_user, utry_catch, ubind, User_findById, user_call, ugets, urespond,
    uret, lift.
  destruct (userDbFails uenv CallUserFindById); [done|].
  destruct (accounts s !! UReq.id req) as [doc|]; [|done].
  by rewrite addSignedUrlsToUser_run, with_world_same.
Qed.

(** X21. Fetching one user never throws and changes nothing. It answers 500
    exactly when the database call fails, 404 exactly when no user has the
    id, and 200 otherwise: with the stored fields of that user except the
    password, and, on the S3 backend and for a user who has an avatar, the
    signed URL of the avatar (or null when signing fails) as
    [avatarUrl]. *)
Theorem getUser_by_id (uenv : UEnv) (req : UReq.t) (s : Site) :
  ∃ r, getUser uenv req s = UReturns r s
       ∧ (ustatus r = 200 ∨ ustatus r = 404 ∨ ustatus r = 500)
       ∧ (ustatus r = 500 ↔ userDbFails uenv CallUserFindById = true)
       ∧ (ustatus r = 404 ↔ userDbFails uenv CallUserFindById = false
                            ∧ accounts s !! UReq.id req = None)
       ∧ (ustatus r = 200 →
          ∃ u doc, ujson r = UUser u
                   ∧ accounts s !! UReq.id req = Some doc
                   ∧ Account._id u = UReq.id req
                   ∧ Account.fields u = delete "password" doc
                   ∧ Account.avatarUrl u
                     = if is_s3 (base_env uenv) && JS.truthy (JS.get doc "avatar")
                       then Some (signed_url (base_env uenv) (JS.get doc "avatar") None)
                       else None).
Proof.
  exists (fetched_user uenv req s). split; [apply getUser_run|]. unfold fetched_user.
  destruct (userDbFails uenv CallUserFindById);
    [|destruct (accounts s !! UReq.id req) as [doc|] eqn:Hdoc]; cbn [ustatus ujson].
  - split_and!; [lia|by split|split; [lia|by intros [? ?]]|lia].
  - split_and!; [lia|by split|split; [lia|by intros [? ?]]|intros _].
    eexists _, doc. split; [reflexivity|]. split; [done|].
    destruct (is_s3 _); cbn [andb]; [|done].
    rewrite usigned_id, usigned_fields, usigned_avatarUrl by done.
    unfold Account.avatar. cbn [without_password Account._id Account.fields].
    by rewrite get_delete_ne.
  - split_and!; [lia|by split|by split|lia].
Qed.

Lemma deleteUser_removes uenv req s doc :
  accounts s !! UReq.id req = Some doc →
  userDbFails uenv CallUserFindById = false →
  userDbFails uenv CallUserFindByIdAndDelete = false →
  let s' := ufinal (deleteUser uenv req s) in
  accounts s' = delete (UReq.id req) (accounts s)
  ∧ users (db (world s')) = delete (UReq.id req) (users (db (world s)))
  ∧ events (db (world s')) = events (db (world s))
  ∧ settings (db (world s')) = settings (db (world s))
  ∧ participations (db (world s')) = participations (db (world s)).
Proof.
  intros Hdoc Hfind Hdel.
  apply (upost_final _ (λ s', accounts s' = delete (UReq.id req) (accounts s)
    ∧ users (db (world s')) = delete (UReq.id req) (users (db (world s)))
    ∧ events (db (world s')) = events (db (world s))
    ∧ settings (db (world s')) = settings (db (world s))
    ∧ participations (db (world s')) = participations (db (world s)))).
  unfold deleteUser. uwp; usimpl; try done; try congruence.
Qed.

(** X22. Users are deleted for good. When [deleteUser] finds the user and
    the deletion goes through, the document is removed from the collection,
    whatever the activity log does afterwards, and fetching the user then
    answers 404: unlike events, users are not soft-deleted. *)
Theorem deleted_user_is_gone (uenv : UEnv) (req req2 : UReq.t) (s : Site) (doc : Doc) :
  let s' := ufinal (deleteUser uenv req s) in
  accounts s !! UReq.id req = Some doc →
  userDbFails uenv CallUserFindById = false →
  userDbFails uenv CallUserFindByIdAndDelete = false →
  UReq.id req2 = UReq.id req →
  accounts s' = delete (UReq.id req) (accounts s)
  ∧ getUser uenv req2 s'
    = UReturns {| ustatus := 404; ujson := UMessage "User not found" |} s'.
Proof.
  intros s' Hdoc Hfind Hdel Hid.
  destruct (deleteUser_removes uenv req s doc Hdoc Hfind Hdel) as (Hacc & _).
  fold s' in Hacc. split; [done|].
  rewrite getUser_run. unfold fetched_user. by rewrite Hfind, Hid, Hacc, lookup_delete_eq.
Qed.

(** X22 in the scenario: Bob is deleted, then fetched. *)
Lemma deleted_user_is_gone_witness :
  let req := UScenario.request "u2" ∅ None "u1" in
  let s' := ufinal (deleteUser UScenario.uenv req UScenario.site) in
  accounts s' = delete "u2" (accounts UScenario.site)
  ∧ getUser UScenario.uenv req s'
    = UReturns {| ustatus := 404; ujson := UMessage "User not found" |} s'.
Proof.
  intros req s'.
  exact (deleted_user_is_gone UScenario.uenv req req UScenario.site UScenario.bob
           eq_refl eq_refl eq_refl eq_refl).
Defined.

Lemma updateEvent_without_organizer env req w old :
  events (db w) !! Req.eventId req = Some old →
  Event.organizer (populate (db w) (Req.eventId req) old) = None →
  dbFails env CallEventFindById = false →
  (∀ f, Req.file req = Some f → is_Some (returned (upload env f (started w)))) →
  updateEvent env req w
  = Returns {| status := 400; json := BFailure "Failed to update event" TypeError |}
      (final_world (updateEvent env req w))
  ∧ db (final_world (updateEvent env req w)) = db w.
Proof.
  intros Hold Horg Hfind Hup.
  destruct (replace_media_returns env req (populate (db w) (Req.eventId req) old) _ Hup)
    as (k & w1 & Hmedia & (bk & tf & m & -> & _)).
  unfold started in Hmedia.
  cut (post (updateEvent env req w)
         (λ r w', r = {| status := 400; json := BFailure "Failed to update event" TypeError |}
                  ∧ db w' = db w)
         (λ _ _, False)).
  { destruct (updateEvent env req w); simpl; [by intros [-> ?]|done]. }
  unfold updateEvent. wp_fwd; wsimpl; try done; try congruence.
Qed.

(** X23. The events of a deleted user can no longer be updated. After
    [deleteUser] has removed a user, an update of an event that names that
    user as its organizer, once the event is found and the file of the
    request, if any, is uploaded, is answered 400 'Failed to update event'
    with a TypeError, whatever the body asks for, and leaves the database
    as it is: the organizer no longer resolves, and [updateEvent] reads its
    id. *)
Theorem events_of_deleted_user_cannot_be_updated (uenv : UEnv) (ureq : UReq.t) (s : Site)
    (doc : Doc) (env : Env) (req : Req.t) (old : Doc) :
  let w' := world (ufinal (deleteUser uenv ureq s)) in
  accounts s !! UReq.id ureq = Some doc →
  userDbFails uenv CallUserFindById = false →
  userDbFails uenv CallUserFindByIdAndDelete = false →
  events (db (world s)) !! Req.eventId req = Some old →
  JS.get old "organizer" = VStr (UReq.id ureq) →
  dbFails env CallEventFindById = false →
  (∀ f, Req.file req = Some f → is_Some (returned (upload env f (started w')))) →
  returned (updateEvent env req w')
  = Some {| status := 400; json := BFailure "Failed to update event" TypeError |}
  ∧ db (final_world (updateEvent env req w')) = db w'.
Proof.
  intros w' Hdoc Hfind Hdel Hold Horg Hefind Hup.
  destruct (deleteUser_removes uenv ureq s doc Hdoc Hfind Hdel) as (_ & Hu & He & _).
  fold w' in Hu, He.
  destruct (updateEvent_without_organizer env req w' old) as [Hr Hdb]; try done.
  - by rewrite He.
  - unfold populate. cbn [Event.organizer]. rewrite Horg, Hu. apply lookup_delete_eq.
  - split; [|done]. by rewrite Hr.
Qed.

(** X23 in the scenario: the title change of E goes through while Alice exists,
    and is refused once she is deleted. *)
Lemma events_of_deleted_user_cannot_be_updated_witness :
  let ureq := UScenario.request "u1" ∅ None "u2" in
  let w' := world (ufinal (deleteUser UScenario.uenv ureq UScenario.site)) in
  status <$> returned (updateEvent Scenario.env Scenario.title_only (world UScenario.site))
  = Some 200
  ∧ returned (updateEvent Scenario.env Scenario.title_only w')
    = Some {| status := 400; json := BFailure "Failed to update event" TypeError |}
  ∧ db (final_world (updateEvent Scenario.env Scenario.title_only w')) = db w'.
Proof.
  intros ureq w'. split; [vm_compute; reflexivity|].
  refine (events_of_deleted_user_cannot_be_updated UScenario.uenv ureq UScenario.site
            UScenario.alice Scenario.env Scenario.title_only Scenario.E
            eq_refl eq_refl eq_refl eq_refl eq_refl eq_refl _).
  intros f Hf. discriminate Hf.
Defined.

(** ** Avatars and the storage *)

Ltac uwp_s3 Hget :=
  repeat (first
    [ uwp_known | wp_known | uwp_sign | uwp_cleanup
    | progress rewrite ?Hget
    | lazymatch goal with
      | |- post (deleteOldImage _ _ _) _ _ =>
          rewrite deleteOldImage_s3_accepted by (usimpl_goal; assumption); cbn [post]
      end
    | uwp_head | wp_head ]).

(** X24. The avatar is deleted before the user. On the S3 backend, when the
    deletion of the avatar is accepted and the deletion of the document then
    fails, [deleteUser] answers 500 and the user is still there, with an
    avatar key whose object is gone from the bucket. *)
Theorem failed_user_deletion_loses_avatar (uenv : UEnv) (req : UReq.t) (s : Site)
    (doc : Doc) (key : string) :
  let env := base_env uenv in
  let s' := ufinal (deleteUser uenv req s) in
  is_s3 env = true →
  accounts s !! UReq.id req = Some doc →
  doc !! "avatar" = Some (VStr key) →
  key ≠ "" →
  delete_rejects (s3Client env) (bucket (world s)) (VStr key) = false →
  userDbFails uenv CallUserFindById = false →
  userDbFails uenv CallUserFindByIdAndDelete = true →
  ureturned (deleteUser uenv req s)
  = Some {| ustatus := 500; ujson := UFailure (Raised DbError) None |}
  ∧ accounts s' = accounts s
  ∧ bucket (world s') = delete key (bucket (world s)).
Proof.
  intros env s' Hs3 Hdoc Havatar Hkey Hdel Hfind Hfail. subst s'.
  assert (JS.get doc "avatar" = VStr key) as Hget by (unfold JS.get; by rewrite Havatar).
  assert (JS.truthy (VStr key) = true) as Htruthy by (by apply truthy_VStr).
  cut (upost (deleteUser uenv req s)
         (λ r s', r = {| ustatus := 500; ujson := UFailure (Raised DbError) None |}
                  ∧ accounts s' = accounts s
                  ∧ bucket (world s') = delete key (bucket (world s)))
         (λ _ _, False)).
  { destruct (deleteUser uenv req s); [|done]. cbn. by intros (-> & ? & ?). }
  unfold deleteUser. uwp_s3 Hget; usimpl; try congruence; done.
Qed.

(** X24 in the scenario, with a database whose [findByIdAndDelete] fails. *)
Lemma failed_user_deletion_loses_avatar_witness :
  let uenv := UScenario.with_userDbFails
                (λ c, match c with CallUserFindByIdAndDelete => true | _ => false end)
                UScenario.uenv in
  let req := UScenario.request "u1" ∅ None "u2" in
  let s' := ufinal (deleteUser uenv req UScenario.site) in
  ureturned (deleteUser uenv req UScenario.site)
  = Some {| ustatus := 500; ujson := UFailure (Raised DbError) None |}
  ∧ accounts s' = accounts UScenario.site
  ∧ bucket (world s') = delete "uploads/alice" (bucket (world UScenario.site)).
Proof.
  intros uenv req s'.
  exact (failed_user_deletion_loses_avatar uenv req UScenario.site UScenario.alice
           "uploads/alice" eq_refl eq_refl eq_refl ltac:(done) eq_refl eq_refl eq_refl).
Defined.

(** X25. The avatar is uploaded before the user is looked up. On the S3
    backend, an avatar update for a requester that has no user document is
    answered 404 'User not found', and the uploaded object stays in the
    bucket: nothing else changes. *)
Theorem avatar_upload_precedes_user_lookup (uenv : UEnv) (req : UReq.t) (s : Site) (f : File) :
  let env := base_env uenv in
  let key := "uploads/" +:+ randomImageName env None in
  is_s3 env = true →
  UReq.file req = Some f →
  put_rejects (s3Client env) (bucket (world s)) key = false →
  accounts s !! UReq.userId req = None →
  userDbFails uenv CallUserFindById = false →
  updateAvatar uenv req s
  = UReturns {| ustatus := 404; ujson := UMessage "User not found" |}
      (with_world
         (emit (MediaPut key)
            (with_bucket (<[key := (buffer f, mimetype f)]> (bucket (world s))) (world s)))
         s).
Proof.
  intros env key Hs3 Hfile Hput Hnone Hfind.
  pose proof (upload_s3_run env f (world s) Hs3) as Hup. cbv zeta in Hup. fold key in Hup.
  rewrite Hput in Hup.
  unfold updateAvatar, utry_catch, ubind, lift, User_findById, user_call, ugets, urespond, uret.
  fold env. rewrite Hfile, Hup. cbn [with_world accounts]. by rewrite Hfind, Hnone.
Qed.

(** X25 in the scenario: an avatar for the unknown requester u9. *)
Lemma avatar_upload_precedes_user_lookup_witness :
  let req := UScenario.request "" ∅ (Some Scenario.png) "u9" in
  ∃ s', updateAvatar UScenario.uenv req UScenario.site
        = UReturns {| ustatus := 404; ujson := UMessage "User not found" |} s'
        ∧ bucket (world s') !! "uploads/ab12" = Some ("new bytes", "image/png").
Proof.
  intros req. eexists. split.
  - exact (avatar_upload_precedes_user_lookup UScenario.uenv req UScenario.site Scenario.png
             eq_refl eq_refl eq_refl eq_refl eq_refl).
  - reflexivity.
Defined.

(** X26. The old avatar is deleted before the new key is saved. On the S3
    backend, when the upload and the deletion of the old avatar are
    accepted and saving the document then fails, [updateAvatar] answers 500,
    the user document is what it was, still naming the old key, and the
    bucket holds the new object and no longer the old one. *)
Theorem failed_avatar_save_loses_old_avatar (uenv : UEnv) (req : UReq.t) (s : Site)
    (f : File) (old : Doc) (oldKey : string) :
  let env := base_env uenv in
  let key := "uploads/" +:+ randomImageName env None in
  let uploaded := <[key := (buffer f, mimetype f)]> (bucket (world s)) in
  let s' := ufinal (updateAvatar uenv req s) in
  is_s3 env = true →
  UReq.file req = Some f →
  put_rejects (s3Client env) (bucket (world s)) key = false →
  accounts s !! UReq.userId req = Some old →
  old !! "avatar" = Some (VStr oldKey) →
  oldKey ≠ "" →
  delete_rejects (s3Client env) uploaded (VStr oldKey) = false →
  userDbFails uenv CallUserFindById = false →
  userDbFails uenv CallUserSave = true
  ∨ castUser uenv (<["avatar" := VStr key]> old) = None →
  (∃ r, ureturned (updateAvatar uenv req s) = Some r ∧ ustatus r = 500)
  ∧ accounts s' = accounts s
  ∧ bucket (world s') = delete oldKey uploaded.
Proof.
  intros env key uploaded s' Hs3 Hfile Hput Hold Havatar Hne Hdel Hfind Hfail. subst s'.
  pose proof (upload_s3_run env f (world s) Hs3) as Hup. cbv zeta in Hup. fold key in Hup.
  rewrite Hput in Hup.
  assert (JS.get old "avatar" = VStr oldKey) as Hget by (unfold JS.get; by rewrite Havatar).
  assert (JS.truthy (VStr oldKey) = true) as Htruthy by (by apply truthy_VStr).
  assert (JS.truthy (VStr key) = true) as Hkey by done.
  cut (upost (updateAvatar uenv req s)
         (λ r s', ustatus r = 500 ∧ accounts s' = accounts s
                  ∧ bucket (world s') = delete oldKey uploaded)
         (λ _ _, False)).
  { destruct (updateAvatar uenv req s) as [r s'|]; [|done]. cbn.
    intros (? & ? & ?). split; [by exists r|done]. }
  unfold updateAvatar. fold env. rewrite Hfile.
  uwp_s3 Hget; usimpl; try congruence.
  all: repeat match goal with
         | H : _ && _ = true |- _ => apply andb_true_iff in H as [? ?]
         | H : _ && _ = false |- _ => rewrite Htruthy, Hkey in H; discriminate H
         end.
  all: try (destruct Hfail; congruence).
  all: try done.
Qed.

(** X26 in the scenario, with a database whose [save] fails. *)
Lemma failed_avatar_save_loses_old_avatar_witness :
  let uenv := UScenario.with_userDbFails
                (λ c, match c with CallUserSave => true | _ => false end)
                UScenario.uenv in
  let req := UScenario.request "" ∅ (Some Scenario.png) "u1" in
  let s' := ufinal (updateAvatar uenv req UScenario.site) in
  (∃ r, ureturned (updateAvatar uenv req UScenario.site) = Some r ∧ ustatus r = 500)
  ∧ accounts s' = accounts UScenario.site
  ∧ bucket (world s')
    = delete "uploads/alice"
        (<[ "uploads/ab12" := ("new bytes", "image/png") ]> (bucket (world UScenario.site))).
Proof.
  intros uenv req s'.
  exact (failed_avatar_save_loses_old_avatar uenv req UScenario.site Scenario.png
           UScenario.alice "uploads/alice"
           eq_refl eq_refl eq_refl eq_refl eq_refl ltac:(done) eq_refl eq_refl
           (or_introl eq_refl)).
Defined.

Lemma avatarUrl_of_signed uenv id stored :
  avatarUrl_of (if is_s3 (base_env uenv) then usigned uenv (without_password id stored)
                else without_password id stored)
  = if is_s3 (base_env uenv) && JS.truthy (JS.get stored "avatar")
    then signed_url (base_env uenv) (JS.get stored "avatar") None
    else JS.get stored "avatarUrl".
Proof.
  unfold avatarUrl_of, usigned, Account.avatar.
  cbn [without_password Account.fields Account.avatarUrl].
  rewrite (get_delete_ne stored "password" "avatar") by done.
  destruct (is_s3 _); cbn [andb].
  - destruct (JS.truthy (JS.get stored "avatar")); cbn; [done|].
    by rewrite get_delete_ne.
  - cbn. by rewrite get_delete_ne.
Qed.

(** X27. What a successful avatar update answers. The response carries the
    saved document without its password and, as [avatar], the signed URL of
    the saved avatar key when the backend is S3 and the key is truthy, and
    otherwise whatever [avatarUrl] the saved document has: off S3 nothing
    sets it, and the URL of the upload is not what [avatar] carries. *)
Theorem avatar_in_response (uenv : UEnv) (req : UReq.t) (s : Site) (r : UResponse) :
  let env := base_env uenv in
  let s' := ufinal (updateAvatar uenv req s) in
  ureturned (updateAvatar uenv req s) = Some r →
  ustatus r = 200 →
  ∃ stored u,
    accounts s' !! UReq.userId req = Some stored
    ∧ Account.fields u = delete "password" stored
    ∧ ujson r
      = UAvatar "Avatar updated successfully"
          (if is_s3 env && JS.truthy (JS.get stored "avatar")
           then signed_url env (JS.get stored "avatar") None
           else JS.get stored "avatarUrl")
          u.
Proof.
  intros env s' Hr Hst. subst s'.
  cut (upost (updateAvatar uenv req s)
         (λ r s', ustatus r = 200 →
            ∃ stored u,
              accounts s' !! UReq.userId req = Some stored
              ∧ Account.fields u = delete "password" stored
              ∧ ujson r
                = UAvatar "Avatar updated successfully"
                    (if is_s3 env && JS.truthy (JS.get stored "avatar")
                     then signed_url env (JS.get stored "avatar") None
                     else JS.get stored "avatarUrl")
                    u)
         (λ _ _, True)).
  { destruct (updateAvatar uenv req s); [|done]. injection Hr as ->. cbn. auto. }
  clear Hr Hst r.
  unfold updateAvatar. fold env. uwp; usimpl; try done.
  all: subst env.
  all: intros _; eexists _, _;
    split_and!; [by rewrite lookup_insert_eq| |rewrite avatarUrl_of_signed; reflexivity];
    by rewrite fields_of_signed.
Qed.

(** X27 in the scenario on the Cloudinary backend: the saved avatar is the URL of
    the upload, and the response carries no [avatar]. *)
Lemma avatar_in_response_witness :
  let uenv := {| base_env := Scenario.env_cloudinary;
                 bcrypt_compare := bcrypt_compare UScenario.uenv;
                 bcrypt_hash := bcrypt_hash UScenario.uenv;
                 castUser := castUser UScenario.uenv;
                 castUserQuery := castUserQuery UScenario.uenv;
                 userDbFails := userDbFails UScenario.uenv |} in
  let site := with_world Scenario.w_disk UScenario.site in
  let req := UScenario.request "" ∅ (Some Scenario.on_disk) "u1" in
  let r := {| ustatus := 200;
              ujson := UAvatar "Avatar updated successfully" VUndef
                         (without_password "u1"
                            (<["avatar" := VStr "https://res.cloudinary.com/demo/x.png"]>
                               UScenario.alice)) |} in
  ureturned (updateAvatar uenv req site) = Some r
  ∧ ∃ stored u,
      accounts (ufinal (updateAvatar uenv req site)) !! UReq.userId req = Some stored
      ∧ Account.fields u = delete "password" stored
      ∧ ujson r
        = UAvatar "Avatar updated successfully"
            (if is_s3 (base_env uenv) && JS.truthy (JS.get stored "avatar")
             then signed_url (base_env uenv) (JS.get stored "avatar") None
             else JS.get stored "avatarUrl")
            u.
Proof.
  intros uenv site req r. split; [reflexivity|].
  apply (avatar_in_response uenv req site r); reflexivity.
Defined.

(** ** The profile *)

Lemma set_if_given_ne path value (user : Doc) k :
  k ≠ path → set_if_given path value user !! k = user !! k.
Proof.
  intros Hne. unfold set_if_given. destruct (JS.truthy value); [|done].
  by rewrite lookup_insert_ne.
Qed.

Lemma profile_password email username lastName firstName (user : Doc) :
  set_if_given "email" email
    (set_if_given "username" username
       (set_if_given "lastName" lastName
          (set_if_given "firstName" firstName user))) !! "password"
  = user !! "password".
Proof. by rewrite !set_if_given_ne. Qed.

(** X28. A password is changed only against the current one. With a schema
    that stores the hash as given, after any run of [updateUser] the
    requester's document is still there, and its [password] is either what
    it was, or the bcrypt hash of the new password, which happens only when
    the request gave a new password and a current password that bcrypt
    matched against the stored hash. The password itself is never
    stored. *)
Theorem password_change_needs_current_password (uenv : UEnv) (req : UReq.t) (s : Site)
    (old : Doc) :
  let password := JS.get (UReq.body req) "password" in
  let currentPassword := JS.get (UReq.body req) "currentPassword" in
  let s' := ufinal (updateUser uenv req s) in
  schema_keeps_password uenv →
  accounts s !! UReq.userId req = Some old →
  ∃ new,
    accounts s' !! UReq.userId req = Some new
    ∧ (new !! "password" = old !! "password"
       ∨ JS.truthy password = true
         ∧ JS.truthy currentPassword = true
         ∧ bcrypt_compare uenv currentPassword (JS.get old "password") = Some true
         ∧ ∃ hash, bcrypt_hash uenv password 10 = Some hash
                   ∧ new !! "password" = Some (VStr hash)).
Proof.
  intros password currentPassword s' Hschema Hold. subst s'.
  apply (upost_final _ (λ s', ∃ new,
    accounts s' !! UReq.userId req = Some new
    ∧ (new !! "password" = old !! "password"
       ∨ JS.truthy password = true
         ∧ JS.truthy currentPassword = true
         ∧ bcrypt_compare uenv currentPassword (JS.get old "password") = Some true
         ∧ ∃ hash, bcrypt_hash uenv password 10 = Some hash
                   ∧ new !! "password" = Some (VStr hash)))).
  unfold updateUser. fold password currentPassword.
  uwp; usimpl; simplify_eq.
  all: try (exists old; split; [done|by left]).
  all: eexists; (split; [by rewrite lookup_insert_eq|]).
  all: match goal with H : castUser _ _ = Some _ |- _ => apply Hschema in H as Hpw end.
  all: rewrite profile_password in Hpw.
  all: try (left; exact Hpw).
  all: right; rewrite lookup_insert_eq in Hpw.
  all: unfold JS.falsy in *.
  all: repeat match goal with
         | H : negb _ = true |- _ => apply negb_true_iff in H
         | H : negb _ = false |- _ => apply negb_false_iff in H
         end.
  all: split_and!; try done; try congruence.
  all: by eexists.
Qed.

(** X28 in the scenario: a wrong current password is answered 400 and changes
    nothing. *)
Lemma password_change_needs_current_password_witness :
  let req := UScenario.request ""
               {[ "password" := VStr "newer"; "currentPassword" := VStr "wrong" ]} None "u1" in
  let s' := ufinal (updateUser UScenario.uenv req UScenario.site) in
  (ustatus <$> ureturned (updateUser UScenario.uenv req UScenario.site) = Some 400
   ∧ s' = UScenario.site)
  ∧ ∃ new,
      accounts s' !! "u1" = Some new
      ∧ (new !! "password" = UScenario.alice !! "password"
         ∨ JS.truthy (VStr "newer") = true
           ∧ JS.truthy (VStr "wrong") = true
           ∧ bcrypt_compare UScenario.uenv (VStr "wrong") (JS.get UScenario.alice "password")
             = Some true
           ∧ ∃ hash, bcrypt_hash UScenario.uenv (VStr "newer") 10 = Some hash
                     ∧ new !! "password" = Some (VStr hash)).
Proof.
  intros req s'. split; [split; reflexivity|].
  apply (password_change_needs_current_password UScenario.uenv req UScenario.site
           UScenario.alice).
  - by intros d d' [= ->].
  - reflexivity.
Defined.

Lemma head_filter_is_Some {A} (P : A → Prop) `{∀ x, Decision (P x)} (l : list A) x :
  x ∈ l → P x → is_Some (head (filter P l)).
Proof.
  intros Hin HP.
  assert (x ∈ filter P l) as Hf by (by apply list_elem_of_filter).
  destruct (filter P l); [by apply elem_of_nil in Hf|by eexists].
Qed.

Lemma User_findOne_finds uenv path value v other doc s :
  userDbFails uenv CallUserFindOne = false →
  castUserQuery uenv path value = Some v →
  accounts s !! other = Some doc →
  doc !! path = Some v →
  ∃ found, User_findOne uenv path value s = UReturns (Some found) s.
Proof.
  intros Hcall Hcast Hother Hdoc. unfold User_findOne, user_call. rewrite Hcall, Hcast.
  destruct (head_filter_is_Some (λ kv : string * Doc, kv.2 !! path = Some v)
              (map_to_list (accounts s)) (other, doc)) as [[i d] Hhead].
  - by apply elem_of_map_to_list.
  - done.
  - rewrite Hhead. by eexists.
Qed.

(** X29. A taken username is refused. When the request gives a username
    that differs from the requester's and some document holds the value the
    schema makes of it, [updateUser] answers 400 'Username already taken'
    and changes nothing. The document that holds it may be the requester's
    own, when the schema maps the given name to the stored one. *)
Theorem taken_username_is_refused (uenv : UEnv) (req : UReq.t) (s : Site)
    (old doc : Doc) (other : string) (v : jsval) :
  let username := JS.get (UReq.body req) "username" in
  accounts s !! UReq.userId req = Some old →
  JS.truthy username = true →
  strict_ne username (JS.get old "username") = true →
  castUserQuery uenv "username" username = Some v →
  accounts s !! other = Some doc →
  doc !! "username" = Some v →
  userDbFails uenv CallUserFindById = false →
  userDbFails uenv CallUserFindOne = false →
  updateUser uenv req s
  = UReturns {| ustatus := 400; ujson := UMessage "Username already taken" |} s.
Proof.
  intros username Hold Htruthy Hne Hcast Hother Hdoc Hfind Hone.
  destruct (User_findOne_finds uenv "username" username v other doc s Hone Hcast Hother Hdoc)
    as [found Hfound].
  unfold updateUser, utry_catch, ubind, User_findById, user_call, ugets, already_taken,
    urespond, uret.
  fold username. rewrite Hfind, Hold, Htruthy, Hne. cbn [andb].
  unfold ubind. rewrite Hfound. by rewrite bool_decide_eq_true_2.
Qed.

(** X29 in the scenario: Alice asks for Bob's username. *)
Lemma taken_username_is_refused_witness :
  let req := UScenario.request "" {[ "username" := VStr "bob" ]} None "u1" in
  updateUser UScenario.uenv req UScenario.site
  = UReturns {| ustatus := 400; ujson := UMessage "Username already taken" |} UScenario.site.
Proof.
  intros req.
  exact (taken_username_is_refused UScenario.uenv req UScenario.site UScenario.alice
           UScenario.bob "u2" (VStr "bob")
           eq_refl eq_refl eq_refl eq_refl eq_refl eq_refl eq_refl eq_refl).
Defined.

(** X30. What [updateUser] never does. It never throws and answers 200, 400,
    404 or 500; an answer 400 or 404 leaves everything as it was; no run
    adds or removes a user or changes the document of another user; and no
    run touches the events, the bucket or the trace of outward effects. *)
Theorem updateUser_frame (uenv : UEnv) (req : UReq.t) (s : Site) :
  let s' := ufinal (updateUser uenv req s) in
  ∃ r, updateUser uenv req s = UReturns r s'
       ∧ (ustatus r = 200 ∨ ustatus r = 400 ∨ ustatus r = 404 ∨ ustatus r = 500)
       ∧ (ustatus r = 400 ∨ ustatus r = 404 → s' = s)
       ∧ (∀ id, id ≠ UReq.userId req → accounts s' !! id = accounts s !! id)
       ∧ dom (accounts s') = dom (accounts s)
       ∧ events (db (world s')) = events (db (world s))
       ∧ bucket (world s') = bucket (world s)
       ∧ trace (world s') = trace (world s).
Proof.
  intros s'. subst s'.
  cut (upost (updateUser uenv req s)
         (λ r s',
            (ustatus r = 200 ∨ ustatus r = 400 ∨ ustatus r = 404 ∨ ustatus r = 500)
            ∧ (ustatus r = 400 ∨ ustatus r = 404 → s' = s)
            ∧ (∀ id, id ≠ UReq.userId req → accounts s' !! id = accounts s !! id)
            ∧ dom (accounts s') = dom (accounts s)
            ∧ events (db (world s')) = events (db (world s))
            ∧ bucket (world s') = bucket (world s)
            ∧ trace (world s') = trace (world s))
         (λ _ _, False)).
  { destruct (updateUser uenv req s) as [r s'|]; [|done]. cbn. by exists r. }
  assert (∀ (m : gmap string Doc) id (x y : Doc), m !! id = Some x →
            dom (<[id := y]> m) = dom m) as Hdom.
  { intros m id x y Hm. rewrite dom_insert_L. apply elem_of_dom_2 in Hm.
    by apply subseteq_union_1_L, singleton_subseteq_l. }
  unfold updateUser. uwp; usimpl.
  all: split_and!; try done; try lia; try (intros [?|?]; lia).
  all: try (intros id Hid; by rewrite lookup_insert_ne).
  all: try (by eapply Hdom).
Qed.
